(** * The idempotent local installer of the speculate CLI

    A shallow embedding of [cli/src/speculate/cli/cli_commands.py]:
    the pattern matcher [_matches_patterns], the header injector
    [_ensure_speculate_header], the install metadata store
    [_update_speculate_settings], the symlink projector
    [_setup_cursor_rules] and the orchestrator [install].

    Python's effects are modelled by a state-and-exception monad over a
    world made of the project's file tree, the terminal output, the
    clock and the installed package metadata.  The libraries the code
    calls but does not contain ([fnmatch], PyYAML) are an interface,
    class [Libs]. *)

From Stdlib Require Import ZArith Ascii.
From stdpp Require Import base option list gmap strings sorting pretty.

(** ** Python [str] operations used by the code *)

Definition nl : string := String (Ascii.ascii_of_nat 10) "".

(** [sub in s] *)
Fixpoint str_in (sub s : string) : bool :=
  String.prefix sub s ||
  match s with
  | "" => false
  | String _ s' => str_in sub s'
  end.

(** The number of positions of [s] at which [sub] starts. *)
Fixpoint occurrences (sub s : string) : nat :=
  (if String.prefix sub s then 1 else 0) +
  match s with
  | "" => 0
  | String _ s' => occurrences sub s'
  end.

Fixpoint has_char (c : Ascii.ascii) (s : string) : bool :=
  match s with
  | "" => false
  | String a s' => bool_decide (a = c) || has_char c s'
  end.

(** [s.replace(old, new)] for a non-empty [old]: a left-to-right scan
    that replaces non-overlapping occurrences.  [skip] counts the
    characters of a matched occurrence still to be dropped. *)
Fixpoint replace_go (old new : string) (skip : nat) (s : string) : string :=
  match s with
  | "" => ""
  | String c s' =>
      match skip with
      | S k => replace_go old new k s'
      | 0 =>
          if String.prefix old s
          then new +:+ replace_go old new (String.length old - 1) s'
          else String c (replace_go old new 0 s')
      end
  end.

(** With an empty [old] Python puts [new] before every character and at
    the end. *)
Fixpoint intersperse (new s : string) : string :=
  match s with
  | "" => new
  | String c s' => new +:+ String c (intersperse new s')
  end.

Definition str_replace (old new s : string) : string :=
  match old with
  | "" => intersperse new s
  | _ => replace_go old new 0 s
  end.

(** [s.endswith(suffix)]: some tail of [s] is [suffix]. *)
Fixpoint endswith (s suffix : string) : bool :=
  bool_decide (s = suffix) ||
  match s with
  | "" => false
  | String _ s' => endswith s' suffix
  end.

(** [s.rfind(c)] for a single character: the last index of [c]. *)
Fixpoint rfind (c : Ascii.ascii) (s : string) : option nat :=
  match s with
  | "" => None
  | String a s' =>
      match rfind c s' with
      | Some i => Some (S i)
      | None => if bool_decide (a = c) then Some 0 else None
      end
  end.

(** [PurePath.stem] of a file name: the name without its last suffix; a
    leading or a trailing dot does not start a suffix. *)
Definition stem (name : string) : string :=
  match rfind "."%char name with
  | Some i =>
      if bool_decide (0 < i) && bool_decide (i < String.length name - 1)
      then String.substring 0 i name
      else name
  | None => name
  end.

(** ** The project's file tree *)

Definition path := list string.

#[warnings="-register-all"]
Inductive node :=
  | File (content : string)
  | Symlink (target : path)
  | Dir (children : gmap string node).

(** The node at a path given by its components, below [n].  A symbolic
    link in a non-final position is not traversed: the model covers
    trees whose intermediate directories are real directories. *)
Fixpoint node_at (n : node) (p : path) : option node :=
  match p with
  | [] => Some n
  | c :: p' =>
      match n with
      | Dir d => d !! c ≫= λ n', node_at n' p'
      | _ => None
      end
  end.

(** Set ([Some]) or remove ([None]) the entry at [p]; fails when the
    parent of [p] is not a directory.  As in [node_at], a link to a
    directory above the entry is not written through: the statements
    about writes are for trees where the directories written to are
    real directories, and say so where it matters. *)
Fixpoint node_set (n : node) (p : path) (o : option node) : option node :=
  match n, p with
  | Dir d, [c] => Some (Dir (partial_alter (λ _, o) c d))
  | Dir d, c :: p' =>
      n' ← d !! c;
      n'' ← node_set n' p' o;
      Some (Dir (<[c := n'']> d))
  | _, _ => None
  end.

Definition parent (p : path) : path := removelast p.

Definition name (p : path) : string := default "" (last p).

(** A link target read from the directory [base] of the link: [..]
    goes up, [.] stays.  A target that leaves the project is outside the
    tree and resolves to nothing. *)
Fixpoint lexical (base t : path) : option path :=
  match t with
  | [] => Some base
  | c :: t' =>
      if bool_decide (c = "..") then
        match base with
        | [] => None
        | _ => lexical (removelast base) t'
        end
      else if bool_decide (c = ".") then lexical base t'
      else lexical (base ++ [c]) t'
  end.

(** Follow the links at the last component of [p], at most [fuel] of
    them, to a node that is not a link. *)
Fixpoint resolve (fuel : nat) (root : node) (p : path) : option (path * node) :=
  match node_at root p with
  | Some (Symlink t) =>
      match fuel with
      | 0 => None
      | S k => lexical (parent p) t ≫= resolve k root
      end
  | Some n => Some (p, n)
  | None => None
  end.

Definition MAXSYMLINKS : nat := 40.

(** ** The world and the monad of the commands *)

Inductive os_error := ENOENT | EEXIST | EISDIR | ENOTDIR.

Inductive exn :=
  | SystemExit (code : Z)
  | OSError (e : os_error)
  | YAMLError.

(** What [cli_ui] prints: one constructor per printing function. *)
Inductive message :=
  | Header (text : string) (detail : string)
  | Info (text : string)
  | Success (text : string)
  | Warning (text : string)
  | Error (text : string) (hint : string)
  | Blank.

Record world := World {
  fs : gmap string node;          (* the entries of the working directory *)
  out : list message;             (* what was printed, oldest first *)
  clock : string;                 (* datetime.now(UTC).isoformat() *)
  dist_version : option string;   (* version("speculate"), None if it raises *)
  cwd : string;                   (* Path.cwd(), as printed *)
}.

Definition set_fs (d : gmap string node) (w : world) : world :=
  World d (out w) (clock w) (dist_version w) (cwd w).

Definition add_out (m : message) (w : world) : world :=
  World (fs w) (out w ++ [m]) (clock w) (dist_version w) (cwd w).

Inductive outcome (A : Type) :=
  | Return (a : A)
  | Raise (e : exn).
Arguments Return {A} a.
Arguments Raise {A} e.

Definition M (A : Type) : Type := world → outcome A * world.

#[global] Instance M_ret : MRet M := λ A a w, (Return a, w).

#[global] Instance M_bind : MBind M := λ A B f m w,
  match m w with
  | (Return a, w') => f a w'
  | (Raise e, w') => (Raise e, w')
  end.

Definition raise {A} (e : exn) : M A := λ w, (Raise e, w).

Definition print (m : message) : M () := λ w, (Return (), add_out m w).

Definition print_header (text detail : string) : M () := print (Header text detail).
Definition print_info (text : string) : M () := print (Info text).
Definition print_success (text : string) : M () := print (Success text).
Definition print_warning (text : string) : M () := print (Warning text).
Definition print_error (text hint : string) : M () := print (Error text hint).
Definition rprint : M () := print Blank.

(** *** [pathlib] on the tree *)

Definition root (w : world) : node := Dir (fs w).

(** [p.exists()]: follows links. *)
Definition path_exists (p : path) : M bool :=
  λ w, (Return (bool_decide (is_Some (resolve MAXSYMLINKS (root w) p))), w).

(** [p.is_symlink()] *)
Definition is_symlink (p : path) : M bool :=
  λ w, (Return match node_at (root w) p with
               | Some (Symlink _) => true
               | _ => false
               end, w).

(** [p.read_text()], also [open(p)] followed by a read. *)
Definition read_text (p : path) : M string :=
  λ w, match resolve MAXSYMLINKS (root w) p with
       | Some (_, File content) => (Return content, w)
       | Some (_, _) => (Raise (OSError EISDIR), w)
       | None => (Raise (OSError ENOENT), w)
       end.

(** Replace the tree by the result of an update, or raise. *)
Definition commit (o : option node) (e : os_error) : M () :=
  λ w, match o with
       | Some (Dir d) => (Return (), set_fs d w)
       | _ => (Raise (OSError e), w)
       end.

(** [with atomic_output_file(p) as t: Path(t).write_text(s)]: the text
    goes to a temporary file that is renamed onto [p]; what was at [p]
    is replaced, a link included. *)
Definition atomic_write (p : path) (s : string) : M () :=
  λ w, commit (node_set (root w) p (Some (File s))) ENOENT w.

(** [p.unlink()] *)
Definition unlink (p : path) : M () :=
  λ w, match node_at (root w) p with
       | Some (Dir _) => (Raise (OSError EISDIR), w)
       | Some _ => commit (node_set (root w) p None) ENOENT w
       | None => (Raise (OSError ENOENT), w)
       end.

(** [p.symlink_to(target)] *)
Definition symlink_to (p target : path) : M () :=
  λ w, match node_at (root w) p with
       | Some _ => (Raise (OSError EEXIST), w)
       | None => commit (node_set (root w) p (Some (Symlink target))) ENOENT w
       end.

(** [p.mkdir(parents=True, exist_ok=True)], one component at a time:
    a missing directory is created, an existing entry must be (a link
    to) a directory.  Nothing is created behind a link: for a path
    with a link to a directory above its last component this is not
    the program's behaviour, and the statements that depend on it take
    the components to be absent or real directories. *)
Fixpoint mkdirs (r : node) (done todo : path) : exn + node :=
  match todo with
  | [] => inr r
  | c :: todo' =>
      let q := done ++ [c] in
      match node_at r q with
      | Some _ =>
          match resolve MAXSYMLINKS r q with
          | Some (_, Dir _) => mkdirs r q todo'
          | _ => inl (OSError match todo' with [] => EEXIST | _ => ENOTDIR end)
          end
      | None =>
          match node_set r q (Some (Dir ∅)) with
          | Some r' => mkdirs r' q todo'
          | None => inl (OSError ENOTDIR)
          end
      end
  end.

Definition mkdir_parents (p : path) : M () :=
  λ w, match mkdirs (root w) [] p with
       | inr (Dir d) => (Return (), set_fs d w)
       | inr _ => (Raise (OSError ENOTDIR), w)
       | inl e => (Raise e, w)
       end.

Definition str_le (a b : string) : Prop := String.leb a b = true.

#[global] Instance str_le_dec : RelDecision str_le :=
  λ a b, decide (String.leb a b = true).

(** [sorted(p.glob("*" + ext))], as file names: the entries of the
    directory whose name ends in [ext], hidden ones included, in the
    order of their names.  Nothing when [p] is not a directory. *)
Definition sorted_names (d : gmap string node) (ext : string) : list string :=
  merge_sort str_le (filter (λ n, endswith n ext = true) (elements (dom d))).

Definition glob_names (r : node) (p : path) (ext : string) : list string :=
  match resolve MAXSYMLINKS r p with
  | Some (_, Dir d) => sorted_names d ext
  | _ => []
  end.

Definition glob_sorted (p : path) (ext : string) : M (list string) :=
  λ w, (Return (glob_names (root w) p ext), w).

(** A [for] loop with an accumulator. *)
Fixpoint for_each {A S} (l : list A) (s : S) (body : S → A → M S) : M S :=
  match l with
  | [] => mret s
  | x :: l' => s' ← body s x; for_each l' s' body
  end.

(** ** Header injector *)

Definition SPECULATE_MARKER : string := "Speculate project structure".

Definition SPECULATE_HEADER : string :=
  "IMPORTANT: You MUST read ./docs/development.md and ./docs/docs-overview.md for project documentation."
  +:+ nl +:+ "(This project uses " +:+ SPECULATE_MARKER +:+ ".)".

Definition _ensure_speculate_header (path : path) : M () :=
  ex ← path_exists path;
  plan ← (if ex : bool then
            content ← read_text path;
            if str_in SPECULATE_MARKER content then
              print_info (name path +:+ " already configured");;
              mret None
            else
              mret (Some (SPECULATE_HEADER +:+ nl +:+ nl +:+ content, "Updated"))
          else
            mret (Some (SPECULATE_HEADER +:+ nl, "Created")));
  match plan with
  | None => mret ()
  | Some (new_content, action) =>
      atomic_write path new_content;;
      print_success (action +:+ " " +:+ name path)
  end.

(** ** The libraries behind the code *)

(** Values that [yaml.safe_load] builds; a mapping has string keys, as
    the annotation [dict[str, Any]] of the code says. *)
#[warnings="-register-all"]
Inductive pyobj :=
  | PyNone
  | PyBool (b : bool)
  | PyInt (z : Z)
  | PyStr (s : string)
  | PyList (l : list pyobj)
  | PyDict (d : gmap string pyobj).

Class Libs := {
  (** [fnmatch.fnmatch(name, pattern)] *)
  fnmatch : string → string → bool;
  (** [yaml.safe_load(text)]: the value, or [None] when it raises
      [yaml.YAMLError] *)
  safe_load : string → option pyobj;
  (** [yaml.dump(mapping, default_flow_style=False)] *)
  dump : gmap string pyobj → string;
}.

Section Commands.
Context `{Libs}.

(** ** Install metadata store *)

Definition yaml_safe_load (text : string) : M pyobj :=
  match safe_load text with
  | Some v => mret v
  | None => raise YAMLError
  end.

Definition _load_yaml (path : path) : M (gmap string pyobj) :=
  text ← read_text path;
  result ← yaml_safe_load text;
  mret match result with
       | PyDict d => d
       | _ => ∅
       end.

Definition now_isoformat : M string := λ w, (Return (clock w), w).

(** [version("speculate")] with the [except Exception] around it. *)
Definition version_or_unknown : M string :=
  λ w, (Return (default "unknown" (dist_version w)), w).

Definition _update_speculate_settings (project_root : path) : M () :=
  let settings_dir := project_root ++ [".speculate"] in
  mkdir_parents settings_dir;;
  let settings_file := settings_dir ++ ["settings.yml"] in
  ex ← path_exists settings_file;
  settings ← (if ex : bool then _load_yaml settings_file else mret ∅);
  t ← now_isoformat;
  let settings := <["last_update" := PyStr t]> settings in
  v ← version_or_unknown;
  let settings := <["last_cli_version" := PyStr v]> settings in
  let answers_file := project_root ++ [".copier-answers.yml"] in
  ex ← path_exists answers_file;
  settings ← (if ex : bool then
                answers ← _load_yaml answers_file;
                mret (<["last_docs_version" :=
                          default (PyStr "unknown") (answers !! "_commit")]> settings)
              else mret settings);
  atomic_write settings_file (dump settings);;
  print_success "Updated .speculate/settings.yml".

(** ** Pattern matcher *)

Definition normalize (pattern : string) : string :=
  str_replace "**" "*" pattern.

(** Python's truth value of an optional list: [None] and [[]] are false. *)
Definition truthy {A} (l : option (list A)) : bool :=
  match l with
  | Some (_ :: _) => true
  | _ => false
  end.

Definition any_match (filename : string) (patterns : option (list string)) : bool :=
  existsb (λ p, fnmatch filename (normalize p)) (default [] patterns).

Definition _matches_patterns (filename : string)
    (include exclude : option (list string)) : bool :=
  if truthy include && negb (any_match filename include) then false
  else if truthy exclude && any_match filename exclude then false
  else true.

(** ** Symlink projector *)

(** The body of the loop of [_setup_cursor_rules], for one rule file. *)
Definition link_rule (cursor_dir : path) (include exclude : option (list string))
    (counts : nat * nat) (rule_file : string) : M (nat * nat) :=
  let '(linked_count, skipped_count) := counts in
  if negb (_matches_patterns rule_file include exclude) then
    mret (linked_count, S skipped_count)
  else
    let link_name := stem rule_file +:+ ".mdc" in
    let link_path := cursor_dir ++ [link_name] in
    e ← path_exists link_path;
    l ← is_symlink link_path;
    (if e || l then unlink link_path else mret ());;
    let relative_target :=
      [".."; ".."; "docs"; "general"; "agent-rules"; rule_file] in
    symlink_to link_path relative_target;;
    mret (S linked_count, skipped_count).

Definition _setup_cursor_rules (project_root : path)
    (include exclude : option (list string)) : M () :=
  let cursor_dir := project_root ++ [".cursor"; "rules"] in
  mkdir_parents cursor_dir;;
  let rules_dir := project_root ++ ["docs"; "general"; "agent-rules"] in
  ex ← path_exists rules_dir;
  if negb ex then
    print_warning "docs/general/agent-rules/ not found, skipping Cursor setup"
  else
    rule_files ← glob_sorted rules_dir ".md";
    counts ← for_each rule_files (0, 0) (link_rule cursor_dir include exclude);
    let '(linked_count, skipped_count) := counts in
    let msg := "Linked " +:+ pretty linked_count +:+ " rules to .cursor/rules/" in
    let msg := if bool_decide (skipped_count ≠ 0)
               then msg +:+ " (" +:+ pretty skipped_count +:+ " skipped by pattern)"
               else msg in
    print_success msg.

(** ** Orchestrator *)

Definition get_cwd : M string := λ w, (Return (cwd w), w).

Definition install (include exclude : option (list string)) : M () :=
  let cwd : path := [] in
  let docs_path := cwd ++ ["docs"] in
  ex ← path_exists docs_path;
  if negb ex then
    print_error "No docs/ directory found"
      "Run `speculate init` first, or manually copy docs/ to this directory.";;
    raise (SystemExit 1)
  else
    shown ← get_cwd;
    print_header "Installing tool configurations..." shown;;
    _update_speculate_settings cwd;;
    _ensure_speculate_header (cwd ++ ["CLAUDE.md"]);;
    _ensure_speculate_header (cwd ++ ["AGENTS.md"]);;
    _setup_cursor_rules cwd include exclude;;
    rprint;;
    print_success "Tool configs installed!";;
    rprint.

End Commands.

(** * Specification-side notions *)

(** The text read through [p], when a regular file is there. *)
Definition file_content (w : world) (p : path) : option string :=
  match resolve MAXSYMLINKS (root w) p with
  | Some (_, File content) => Some content
  | _ => None
  end.

Definition exists_at (w : world) (p : path) : bool :=
  bool_decide (is_Some (resolve MAXSYMLINKS (root w) p)).

(** The actions of the Header Injector, section 4.3. *)
Inductive action := created | updated | unchanged.

(** The Header Injector in the words of the specification: from the
    content found at the path, the action and the new content. *)
Definition ensureHeader (markerSubstring headerTemplate : string)
    (before : option string) : action * string :=
  match before with
  | Some content =>
      if str_in markerSubstring content then (unchanged, content)
      else (updated, headerTemplate +:+ nl +:+ nl +:+ content)
  | None => (created, headerTemplate +:+ nl)
  end.

(** How the code reports each action on the terminal. *)
Definition report (name : string) (a : action) : message :=
  match a with
  | unchanged => Info (name +:+ " already configured")
  | updated => Success ("Updated " +:+ name)
  | created => Success ("Created " +:+ name)
  end.




(** The glob test the code applies to one pattern. *)
Definition glob_match `{Libs} (filename pattern : string) : bool :=
  fnmatch filename (normalize pattern).

(** The Install Metadata Store, section 4.4.  What [_load_yaml] makes of
    a loaded value, the outcome of the optional load of a file (absent,
    loaded, or [None] when the load raises), and the record written. *)
Definition as_dict (v : pyobj) : gmap string pyobj :=
  match v with
  | PyDict d => d
  | _ => ∅
  end.

Definition load_or_absent `{Libs} (w : world) (p : path) :
    option (option (gmap string pyobj)) :=
  if exists_at w p then
    v ← file_content w p ≫= safe_load; Some (Some (as_dict v))
  else Some None.

Definition settings_file : path := [".speculate"; "settings.yml"].
Definition answers_file : path := [".copier-answers.yml"].

Definition standard_keys : list string :=
  ["last_update"; "last_cli_version"; "last_docs_version"].

Definition new_record (w : world) (prior : gmap string pyobj)
    (answers : option (gmap string pyobj)) : gmap string pyobj :=
  let settings :=
    <["last_cli_version" := PyStr (default "unknown" (dist_version w))]>
      (<["last_update" := PyStr (clock w)]> prior) in
  match answers with
  | Some a =>
      <["last_docs_version" := default (PyStr "unknown") (a !! "_commit")]> settings
  | None => settings
  end.

(** The Symlink Projector, section 4.2: the names found in a directory,
    and the link names the specification expects for the documents [D]
    under a filter, [{stem(d) + extTo : d ∈ D, matches(d, I, E)}]. *)
Definition cursor_dir : path := [".cursor"; "rules"].
Definition rules_dir : path := ["docs"; "general"; "agent-rules"].

Definition dir_names (w : world) (p : path) : gset string :=
  match node_at (root w) p with
  | Some (Dir d) => dom d
  | _ => ∅
  end.

Definition link_name (d : string) : string := stem d +:+ ".mdc".

Definition link_names `{Libs} (D : list string)
    (I E : option (list string)) : gset string :=
  list_to_set (link_name <$> filter (λ d, _matches_patterns d I E = true) D).

(** The Installer Orchestrator, section 4.5: what [install] prints
    around its steps. *)
Definition install_header (w : world) : message :=
  Header "Installing tool configurations..." (cwd w).

Definition install_footer (w : world) : world :=
  add_out Blank (add_out (Success "Tool configs installed!") (add_out Blank w)).

(** * An instance of the libraries, for the examples

    [fnmatch] on patterns made of literal characters, [?] and [*]; the
    bracket classes of [fnmatch] are not in this fragment. *)
Fixpoint wildcard (pattern s : string) : bool :=
  match pattern with
  | "" => bool_decide (s = "")
  | String c pattern' =>
      if bool_decide (c = "*"%char) then
        (fix star (s : string) : bool :=
           wildcard pattern' s ||
           match s with
           | "" => false
           | String _ s' => star s'
           end) s
      else
        match s with
        | "" => false
        | String x s' =>
            (bool_decide (c = "?"%char) || bool_decide (c = x)) && wildcard pattern' s'
        end
  end.

(** A YAML codec for the documents of the examples: the empty document,
    a plain word, and block mappings with one [key: value] per line
    whose values are plain words or single-quoted strings.  A text
    outside this fragment does not load; a value that opens a bracket
    and never closes it is such a text, and a syntax error for PyYAML
    too. *)
Fixpoint lines (s : string) : list string :=
  match s with
  | "" => [""]
  | String c s' =>
      match lines s' with
      | l :: ls => if bool_decide (c = ascii_of_nat 10) then "" :: l :: ls
                   else String c l :: ls
      | [] => []
      end
  end.

Fixpoint split_colon (s : string) : option (string * string) :=
  match s with
  | "" => None
  | String c s' =>
      if String.prefix ": " s then Some ("", String.substring 2 (String.length s) s)
      else '(k, v) ← split_colon s'; Some (String c k, v)
  end.

Definition letter (c : ascii) : bool :=
  let n := nat_of_ascii c in
  bool_decide (65 ≤ n ≤ 90) || bool_decide (97 ≤ n ≤ 122).

Definition word_char (c : ascii) : bool :=
  let n := nat_of_ascii c in
  letter c || bool_decide (48 ≤ n ≤ 57) || bool_decide (c = "_"%char)
  || bool_decide (c = "-"%char).

Fixpoint all_chars (P : ascii → bool) (s : string) : bool :=
  match s with
  | "" => true
  | String c s' => P c && all_chars P s'
  end.

Definition yaml_keywords : list string :=
  ["null"; "Null"; "NULL"; "true"; "True"; "TRUE"; "false"; "False"; "FALSE";
   "yes"; "Yes"; "YES"; "no"; "No"; "NO"; "on"; "On"; "ON"; "off"; "Off"; "OFF"].

Definition plain_word (s : string) : bool :=
  match s with
  | "" => false
  | String c _ => letter c && all_chars word_char s && bool_decide (s ∉ yaml_keywords)
  end.

Definition quote : string := "'".

Definition mini_scalar (s : string) : option pyobj :=
  if plain_word s then Some (PyStr s)
  else if String.prefix quote s && endswith s quote
          && bool_decide (2 ≤ String.length s) then
    let inner := String.substring 1 (String.length s - 2) s in
    if str_in quote (str_replace (quote +:+ quote) "" inner) then None
    else Some (PyStr (str_replace (quote +:+ quote) quote inner))
  else None.

Definition mini_entry (line : string) : option (string * pyobj) :=
  '(k, v) ← split_colon line;
  if all_chars word_char k && bool_decide (k ≠ "")
  then x ← mini_scalar v; Some (k, x)
  else None.

Definition mini_safe_load (text : string) : option pyobj :=
  match filter (λ l, l ≠ "") (lines text) with
  | [] => Some PyNone
  | ls =>
      match mapM mini_entry ls with
      | Some entries =>
          Some (PyDict (foldl (λ m e, <[e.1 := e.2]> m) ∅ entries))
      | None =>
          match ls with
          | [l] => if plain_word l then Some (PyStr l) else None
          | _ => None
          end
      end
  end.

(** Strings are printed single-quoted; collections are not in the
    fragment and are printed empty. *)
Definition mini_value (v : pyobj) : string :=
  match v with
  | PyNone => "null"
  | PyBool b => if b then "true" else "false"
  | PyInt z => pretty z
  | PyStr s => quote +:+ str_replace quote (quote +:+ quote) s +:+ quote
  | PyList _ => "[]"
  | PyDict _ => "{}"
  end.

Definition mini_dump (m : gmap string pyobj) : string :=
  foldr (λ k text, k +:+ ": " +:+ from_option mini_value "" (m !! k) +:+ nl +:+ text)
        "" (merge_sort str_le (elements (dom m))).

Definition sample_libs : Libs := {|
  fnmatch name pattern := wildcard pattern name;
  safe_load := mini_safe_load;
  dump := mini_dump;
|}.

Definition sample_world (entries : gmap string node) : world :=
  World entries [] "2025-01-01T00:00:00+00:00" (Some "0.1.0") "/home/user/project".

(** Example projects. *)
Definition rule_file (text : string) : node := File text.

Definition docs_with (rules : gmap string node) : node :=
  Dir {[ "general" := Dir {[ "agent-rules" := Dir rules ]} ]}.

(** A project with a [CLAUDE.md] that has no header yet. *)
Definition notes_project : world :=
  sample_world {[ "CLAUDE.md" := File ("# Notes" +:+ nl) ]}.

(** A project whose [CLAUDE.md] mentions the marker in the middle of
    its text and has no header. *)
Definition quoting_project : world :=
  sample_world
    {[ "CLAUDE.md" :=
         File ("# Notes" +:+ nl +:+ "See the Speculate project structure page." +:+ nl) ]}.

(** Two rule files, no link directory yet. *)
Definition two_rules_project : world :=
  sample_world
    {[ "docs" := docs_with {[ "a.md" := rule_file "A"; "b.md" := rule_file "B" ]} ]}.

(** One rule file, and a link directory that holds a link to a rule
    file that is gone. *)
Definition stale_link_project : world :=
  sample_world
    {[ "docs" := docs_with {[ "a.md" := rule_file "A" ]};
       ".cursor" := Dir {[ "rules" :=
         Dir {[ "old.mdc" :=
                  Symlink [".."; ".."; "docs"; "general"; "agent-rules"; "old.md"] ]} ]} ]}.

(** A [docs/] directory without rules, and a settings file. *)
Definition project_with_settings (text : string) : world :=
  sample_world
    {[ "docs" := Dir ∅;
       ".speculate" := Dir {[ "settings.yml" := File text ]} ]}.


(** * Further notions *)

(** The entry of the link directory under a name, the target the code
    gives to the link of a rule file, and the message that closes a
    projection. *)
Definition link_entry (w : world) (n : string) : option node :=
  node_at (root w) (cursor_dir ++ [n]).

Definition link_target (d : string) : path :=
  [".."; ".."; "docs"; "general"; "agent-rules"; d].

Definition linked_message (linked_count skipped_count : nat) : message :=
  let msg := "Linked " +:+ pretty linked_count +:+ " rules to .cursor/rules/" in
  Success (if bool_decide (skipped_count ≠ 0)
           then msg +:+ " (" +:+ pretty skipped_count +:+ " skipped by pattern)"
           else msg).

(** The link directory after the loop of the projection, from its
    content [L] before: each matching rule file, in order, puts its
    link in place of whatever is under its link name. *)
Definition relink `{Libs} (I E : option (list string))
    (L : gmap string node) (d : string) : gmap string node :=
  if _matches_patterns d I E
  then <[link_name d := Symlink (link_target d)]> L
  else L.

Definition projected `{Libs} (I E : option (list string))
    (D : list string) (L : gmap string node) : gmap string node :=
  foldl (relink I E) L D.

(** The content of the link directory as [mkdir(parents=True,
    exist_ok=True)] leaves it: what is there when [.cursor/rules] is a
    directory, nothing when it or [.cursor] is missing; no content
    when something else is in the way. *)
Definition link_dir_content (w : world) : option (gmap string node) :=
  match fs w !! ".cursor" with
  | None => Some ∅
  | Some (Dir C) =>
      match C !! "rules" with
      | None => Some ∅
      | Some (Dir L) => Some L
      | Some _ => None
      end
  | Some _ => None
  end.

(** A command touches only the entries [ks] of the working directory:
    whatever its outcome, every other entry is left as it was. *)
Definition touches {A} (ks : list string) (m : M A) : Prop :=
  ∀ w k, k ∉ ks → fs (m w).2 !! k = fs w !! k.

(** The entries of the working directory that [install] writes to. *)
Definition install_entries : list string :=
  [".speculate"; "CLAUDE.md"; "AGENTS.md"; ".cursor"].

(** The entry is not a symbolic link; the directories that the
    projection, and that [install], write to are not reached through
    one. *)
Definition not_link (o : option node) : Prop := ∀ t, o ≠ Some (Symlink t).

Definition link_dir_real (w : world) : Prop :=
  not_link (fs w !! ".cursor") ∧ not_link (node_at (root w) cursor_dir).

Definition install_dirs_real (w : world) : Prop :=
  not_link (fs w !! ".speculate") ∧ link_dir_real w.



(** * Further commands

    [update] and [status] call code that is not in this repository: the
    [copier] package, three more printing functions of [cli_ui], the
    formatters of [prettyfmt] and Python's conversion of a loaded value
    to text in an f-string.  They are taken as given. *)

Class Copier := {
  (** [copier.run_update(str(cwd), conflict="inline")], its result
      dropped *)
  copier_run_update : M ();
}.

Class Console := {
  print_missing : string → M ();
  print_detail : string → M ();
  print_error_item : string → string → M ();
  (** [str(v)], as an f-string inserts a value *)
  py_str : pyobj → string;
  fmt_count_items : nat → string → string;
  fmt_size_human : nat → string;
}.

(** A printing function prints: it returns and leaves the files alone. *)
Definition prints_only (p : M ()) : Prop :=
  ∀ w, ∃ w', p w = (Return (), w') ∧ fs w' = fs w.

Definition console_prints `{Console} : Prop :=
  (∀ s, prints_only (print_missing s)) ∧
  (∀ s, prints_only (print_detail s)) ∧
  (∀ s h, prints_only (print_error_item s h)).

(** [path.rglob("*")]: every entry below the directory, hidden ones
    included; the directories are entered, links to directories are
    not. *)
Fixpoint walk (n : node) (p : path) {struct n} : list path :=
  match n with
  | Dir d => map_fold (λ k x acc, (p ++ [k]) :: walk x (p ++ [k]) ++ acc) [] d
  | _ => []
  end.

Definition rglob_all (r : node) (p : path) : list path :=
  match resolve MAXSYMLINKS r p with
  | Some (q, Dir d) => walk (Dir d) q
  | _ => []
  end.

(** [f.is_file()] and [f.stat().st_size], both through links. *)
Definition file_size (r : node) (f : path) : option nat :=
  match resolve MAXSYMLINKS r f with
  | Some (_, File content) => Some (String.length content)
  | _ => None
  end.

(** The body of the loop of [_get_dir_stats]. *)
Definition count_file (r : node) (counts : nat * nat) (f : path) : nat * nat :=
  let '(file_count, total_size) := counts in
  match file_size r f with
  | Some size => (file_count + 1, total_size + size)
  | None => (file_count, total_size)
  end.

Definition _get_dir_stats (path : path) : M (nat * nat) :=
  λ w, (Return (foldl (count_file (root w)) (0, 0) (rglob_all (root w) path)), w).

(** The regular files of a tree and their sizes, and the trees without
    symbolic links. *)
Fixpoint count_files (n : node) : nat :=
  match n with
  | File _ => 1
  | Symlink _ => 0
  | Dir d => map_fold (λ _ x acc, count_files x + acc) 0 d
  end.

Fixpoint total_bytes (n : node) : nat :=
  match n with
  | File content => String.length content
  | Symlink _ => 0
  | Dir d => map_fold (λ _ x acc, total_bytes x + acc) 0 d
  end.

Fixpoint no_links (n : node) : bool :=
  match n with
  | File _ => true
  | Symlink _ => false
  | Dir d => map_fold (λ _ x acc, no_links x && acc) true d
  end.

Fixpoint node_size (n : node) : nat :=
  match n with
  | Dir d => S (map_fold (λ _ x acc, node_size x + acc) 0 d)
  | _ => 1
  end.

Section FurtherCommands.
Context `{Libs} `{Copier} `{Console}.

Definition update : M () :=
  let cwd : path := [] in
  let answers_file := cwd ++ [".copier-answers.yml"] in
  ex ← path_exists answers_file;
  if negb ex then
    print_error "No .copier-answers.yml found"
      "Run `speculate init` first to initialize docs.";;
    raise (SystemExit 1)
  else
    shown ← get_cwd;
    print_header "Updating docs from upstream template..." shown;;
    copier_run_update;;
    rprint;;
    print_success "Docs updated successfully!";;
    rprint;;
    install None None.

(** One turn of the loop of [status] over the tool configs. *)
Definition check_config (_ : ()) (item : string * path) : M () :=
  let '(name, path) := item in
  ex ← path_exists path;
  if ex : bool then print_success (name +:+ " exists")
  else print_info (name +:+ " not configured").

Definition status : M () :=
  let cwd : path := [] in
  let has_errors := false in
  shown ← get_cwd;
  print_header "Speculate Status" shown;;
  let answers_file := cwd ++ [".copier-answers.yml"] in
  ex ← path_exists answers_file;
  (if ex : bool then
     answers ← _load_yaml answers_file;
     let commit := default (PyStr "unknown") (answers !! "_commit") in
     let src := default (PyStr "unknown") (answers !! "_src_path") in
     print_success ("Template version: " +:+ py_str commit);;
     print_detail ("Source: " +:+ py_str src)
   else
     print_missing "No .copier-answers.yml (not initialized)");;
  let settings_file := cwd ++ [".speculate"; "settings.yml"] in
  ex ← path_exists settings_file;
  (if ex : bool then
     settings ← _load_yaml settings_file;
     let last_update := default (PyStr "unknown") (settings !! "last_update") in
     let cli_version := default (PyStr "unknown") (settings !! "last_cli_version") in
     print_success ("Last install: " +:+ py_str last_update +:+
                    " (CLI " +:+ py_str cli_version +:+ ")")
   else
     print_info ".speculate/settings.yml not found");;
  let docs_path := cwd ++ ["docs"] in
  ex ← path_exists docs_path;
  (if ex : bool then
     stats ← _get_dir_stats docs_path;
     let '(file_count, total_size) := stats in
     print_success ("docs/ exists (" +:+ fmt_count_items file_count "file" +:+
                    ", " +:+ fmt_size_human total_size +:+ ")")
   else
     print_missing "docs/ not found");;
  let dev_md := cwd ++ ["docs"; "development.md"] in
  ex ← path_exists dev_md;
  has_errors ← (if ex : bool then
                  print_success "docs/development.md exists";;
                  mret has_errors
                else
                  print_error_item "docs/development.md missing (required!)"
                    "Create this file using docs/project/development.sample.md as a template.";;
                  mret true);
  for_each [("CLAUDE.md", cwd ++ ["CLAUDE.md"]);
            ("AGENTS.md", cwd ++ ["AGENTS.md"]);
            (".cursor/rules/", cwd ++ [".cursor"; "rules"])] () check_config;;
  rprint;;
  if has_errors : bool then raise (SystemExit 1) else mret ().

End FurtherCommands.


(** * Further examples *)

(** A copier that finds nothing to update, and a console that prints
    the further messages as plain ones. *)
Definition idle_copier : Copier := {|
  copier_run_update := mret ();
|}.

Definition plain_str (v : pyobj) : string :=
  match v with
  | PyStr s => s
  | _ => mini_value v
  end.

Definition plain_console : Console := {|
  print_missing s := print (Warning s);
  print_detail s := print (Info s);
  print_error_item s h := print (Error s h);
  py_str := plain_str;
  fmt_count_items n s := pretty n +:+ " " +:+ s +:+ (if bool_decide (n = 1) then "" else "s");
  fmt_size_human n := pretty n +:+ " B";
|}.

(** One rule file, and a directory where its link belongs. *)
Definition blocked_project : world :=
  sample_world
    {[ "docs" := docs_with {[ "a.md" := rule_file "A" ]};
       ".cursor" := Dir {[ "rules" := Dir {[ "a.mdc" := Dir ∅ ]} ]} ]}.

(** A directory named [CLAUDE.md]. *)
Definition claude_dir_project : world :=
  sample_world {[ "docs" := Dir ∅; "CLAUDE.md" := Dir ∅ ]}.

(** Settings, and an answers file that is not YAML. *)
Definition broken_answers_project : world :=
  sample_world
    {[ "docs" := Dir ∅;
       ".speculate" := Dir {[ "settings.yml" := File ("x: y" +:+ nl) ]};
       ".copier-answers.yml" := File "key: [broken" ]}.

(** [docs/development.md] and nothing else: no answers file, no
    settings, no tool configs. *)
Definition ready_project : world :=
  sample_world {[ "docs" := Dir {[ "development.md" := File "# Development" ]} ]}.



(** * Properties *)

(** ** Strings *)

Lemma append_cons (x : ascii) (a b : string) :
  String x a +:+ b = String x (a +:+ b).
Proof. reflexivity. Qed.

Lemma str_in_cons (sub : string) (x : ascii) (s : string) :
  str_in sub (String x s) = String.prefix sub (String x s) || str_in sub s.
Proof. reflexivity. Qed.

Lemma occurrences_cons (sub : string) (x : ascii) (s : string) :
  occurrences sub (String x s) =
  (if String.prefix sub (String x s) then 1 else 0) + occurrences sub s.
Proof. reflexivity. Qed.

Lemma prefix_cons (y x : ascii) (sub s : string) :
  String.prefix (String y sub) (String x s) =
  if ascii_dec y x then String.prefix sub s else false.
Proof. reflexivity. Qed.


Lemma prefix_app (sub a b : string) :
  String.prefix sub a = true → String.prefix sub (a +:+ b) = true.
Proof.
  revert a. induction sub as [|c sub IH]; intros [|x a]; simpl; try done.
  - by destruct b.
  - destruct (Ascii.ascii_dec c x); [apply IH | done].
Qed.

Lemma str_in_app_l (sub a b : string) :
  str_in sub a = true → str_in sub (a +:+ b) = true.
Proof.
  induction a as [|x a IH].
  - simpl. rewrite orb_false_r. destruct sub; [|done]. by destruct b.
  - rewrite append_cons, !str_in_cons, <-append_cons.
    intros [Hp|Hin]%orb_true_iff.
    + by rewrite (prefix_app _ _ b Hp).
    + rewrite (IH Hin). apply orb_true_r.
Qed.

Lemma occurrences_0 (sub s : string) :
  str_in sub s = false → occurrences sub s = 0.
Proof.
  induction s as [|x s IH]; cbn [str_in occurrences].
  - rewrite orb_false_r. by intros ->.
  - intros [-> Hs]%orb_false_iff. by rewrite IH.
Qed.

Lemma prefix_sep (c : Ascii.ascii) (sub a b b' : string) :
  has_char c sub = false →
  String.prefix sub (a +:+ String c b) = String.prefix sub (a +:+ String c b').
Proof.
  revert a. induction sub as [|y sub IH]; intros a Hc; [by destruct a|].
  cbn [has_char] in Hc. apply orb_false_iff in Hc as [Hy Hc].
  apply bool_decide_eq_false in Hy.
  destruct a as [|x a]; simpl.
  - by destruct (Ascii.ascii_dec y c).
  - destruct (Ascii.ascii_dec y x); [by apply IH | done].
Qed.

Lemma occurrences_sep (c : Ascii.ascii) (sub a b : string) :
  sub ≠ "" → has_char c sub = false →
  occurrences sub (a +:+ String c b) =
  occurrences sub (a +:+ String c "") + occurrences sub b.
Proof.
  intros Hne Hc. induction a as [|x a IH].
  - destruct sub as [|y sub]; [done|]. cbn [has_char] in Hc.
    apply orb_false_iff in Hc as [Hy _]. apply bool_decide_eq_false in Hy.
    simpl. by destruct (Ascii.ascii_dec y c).
  - rewrite !append_cons, !occurrences_cons, <-!append_cons.
    rewrite (prefix_sep c sub (String x a) b "" Hc), append_cons, IH. lia.
Qed.

(** ** The file tree *)

Lemma node_set_unfold (n : node) (c : string) (p : path) (o : option node) :
  node_set n (c :: p) o =
  match n with
  | Dir d =>
      match p with
      | [] => Some (Dir (partial_alter (λ _, o) c d))
      | _ => n' ← d !! c; n'' ← node_set n' p o; Some (Dir (<[c := n'']> d))
      end
  | _ => None
  end.
Proof. by destruct n. Qed.

Lemma node_set_deep (d : gmap string node) (c : string) (q : path)
    (o : option node) :
  q ≠ [] →
  node_set (Dir d) (c :: q) o =
  d !! c ≫= λ n', node_set n' q o ≫= λ n'', Some (Dir (<[c := n'']> d)).
Proof. by destruct q. Qed.

Lemma node_set_is_dir (n : node) (p : path) (o : option node) (n' : node) :
  node_set n p o = Some n' → ∃ d, n' = Dir d.
Proof.
  destruct p as [|c p]; [by destruct n|]. rewrite node_set_unfold.
  destruct n as [| |d]; try done. destruct p as [|c' p].
  - intros [= <-]. eauto.
  - intros. simplify_option_eq. eauto.
Qed.

Lemma node_at_set (n : node) (p : path) (o : option node) (n' : node) :
  p ≠ [] → node_set n p o = Some n' → node_at n' p = o.
Proof.
  revert n n'. induction p as [|c p IH]; [done|]. intros n n' _.
  rewrite node_set_unfold.
  destruct n as [| |d]; try done.
  destruct p as [|c' p].
  - intros [= <-]. simpl. rewrite lookup_partial_alter_eq.
    by destruct o.
  - destruct (d !! c) as [x|] eqn:Hx; cbn [mbind option_bind]; [|done].
    destruct (node_set x (c' :: p) o) as [x'|] eqn:Hs; cbn [mbind option_bind]; [|done].
    intros [= <-]. cbn [node_at]. rewrite lookup_insert_eq. cbn [mbind option_bind].
    by apply (IH x x').
Qed.

Lemma parent_cons (c c' : string) (p : path) :
  parent (c :: c' :: p) = c :: parent (c' :: p).
Proof. reflexivity. Qed.

Lemma node_set_Some (n : node) (p : path) (o : option node) (d : gmap string node) :
  p ≠ [] → node_at n (parent p) = Some (Dir d) → is_Some (node_set n p o).
Proof.
  revert n. induction p as [|c p IH]; [done|]. intros n _.
  rewrite node_set_unfold.
  destruct p as [|c' p].
  - simpl. intros [= ->]. eauto.
  - rewrite parent_cons.
    cbn [node_at]. destruct n as [| |dn]; try done.
    destruct (dn !! c) as [x|]; cbn [mbind option_bind]; [|done]. intros Hx.
    destruct (IH x) as [x' ->]; [done|done|]. cbn [mbind option_bind]. eauto.
Qed.

Lemma node_at_parent (n x : node) (p : path) :
  p ≠ [] → node_at n p = Some x → ∃ d, node_at n (parent p) = Some (Dir d).
Proof.
  revert n. induction p as [|c p IH]; [done|]. intros n _.
  destruct p as [|c' p].
  - simpl. destruct n; try done. eauto.
  - rewrite parent_cons.
    cbn [node_at]. destruct n as [| |dn]; try done.
    destruct (dn !! c) as [y|]; cbn [mbind option_bind]; [|done]. by apply IH.
Qed.

Lemma resolve_not_link (fuel : nat) (r n : node) (p : path) :
  node_at r p = Some n → (∀ t, n ≠ Symlink t) → resolve fuel r p = Some (p, n).
Proof.
  intros Hn Hl. destruct fuel; simpl; rewrite Hn; destruct n; try done;
    by destruct (Hl target).
Qed.

(** What [resolve] finds is in the tree and is not a link. *)
Lemma resolve_node_at (fuel : nat) (r n : node) (p q : path) :
  resolve fuel r p = Some (q, n) → node_at r q = Some n ∧ ∀ t, n ≠ Symlink t.
Proof.
  revert p. induction fuel as [|k IH]; intros p; simpl.
  - destruct (node_at r p) as [[| |]|] eqn:Hp; try done; intros [= <- <-]; done.
  - destruct (node_at r p) as [[|t|]|] eqn:Hp; try done;
      try (intros [= <- <-]; done).
    destruct (lexical (parent p) t) as [p'|]; simpl; [apply IH | done].
Qed.

Lemma resolve_is_Some_node_at (fuel : nat) (r : node) (p : path) :
  is_Some (resolve fuel r p) → is_Some (node_at r p).
Proof.
  destruct fuel; simpl; destruct (node_at r p); eauto; by intros [? ?].
Qed.

(** ** Running the monad *)

Lemma run_bind {A B} (m : M A) (f : A → M B) (w : world) :
  (m ≫= f) w =
  match m w with
  | (Return a, w') => f a w'
  | (Raise e, w') => (Raise e, w')
  end.
Proof. reflexivity. Qed.

Lemma run_ret {A} (a : A) (w : world) : (mret a : M A) w = (Return a, w).
Proof. reflexivity. Qed.

Lemma path_exists_run (p : path) (w : world) :
  path_exists p w = (Return (exists_at w p), w).
Proof. reflexivity. Qed.

Lemma read_text_file (p : path) (w : world) (c : string) :
  file_content w p = Some c → read_text p w = (Return c, w).
Proof.
  unfold file_content, read_text.
  destruct (resolve _ _ _) as [[q [| |]]|]; try done. by intros [= ->].
Qed.

Lemma file_content_exists (p : path) (w : world) (c : string) :
  file_content w p = Some c → exists_at w p = true.
Proof.
  unfold file_content, exists_at. destruct (resolve _ _ _); [|done].
  intros _. by apply bool_decide_eq_true.
Qed.

Lemma atomic_write_run (p : path) (s : string) (w : world) :
  is_Some (node_set (root w) p (Some (File s))) →
  ∃ d', node_set (root w) p (Some (File s)) = Some (Dir d') ∧
        atomic_write p s w = (Return (), set_fs d' w).
Proof.
  intros [n Hn]. destruct (node_set_is_dir _ _ _ _ Hn) as [d' ->].
  exists d'. split; [done|]. unfold atomic_write, commit. by rewrite Hn.
Qed.

Lemma file_content_written (p : path) (s : string) (w w' : world) :
  p ≠ [] → node_set (root w) p (Some (File s)) = Some (root w') →
  file_content w' p = Some s.
Proof.
  intros Hp Hs. unfold file_content.
  by rewrite (resolve_not_link _ _ (File s)); [| eapply node_at_set |].
Qed.

Lemma exists_at_nil (w : world) : exists_at w [] = true.
Proof. done. Qed.

Lemma marker_in_header : str_in SPECULATE_MARKER SPECULATE_HEADER = true.
Proof. reflexivity. Qed.

Lemma marker_after_update (c : string) :
  str_in SPECULATE_MARKER (SPECULATE_HEADER +:+ nl +:+ nl +:+ c) = true.
Proof. apply str_in_app_l, marker_in_header. Qed.

Lemma marker_after_create :
  str_in SPECULATE_MARKER (SPECULATE_HEADER +:+ nl) = true.
Proof. reflexivity. Qed.

(** Writing a file where something exists, or where the directory
    exists, succeeds. *)
Lemma writable (w : world) (p : path) (o : option node) :
  p ≠ [] →
  exists_at w p = true ∨ (∃ d, node_at (root w) (parent p) = Some (Dir d)) →
  is_Some (node_set (root w) p o).
Proof.
  intros Hp [He|[d Hd]].
  - apply bool_decide_eq_true in He.
    apply resolve_is_Some_node_at in He as [x Hx].
    destruct (node_at_parent _ _ _ Hp Hx) as [d Hd].
    by eapply node_set_Some.
  - by eapply node_set_Some.
Qed.

Lemma ensure_header_run (p : path) (w : world) :
  (exists_at w p = true → is_Some (file_content w p)) →
  (exists_at w p = false → ∃ d, node_at (root w) (parent p) = Some (Dir d)) →
  ∃ w',
    _ensure_speculate_header p w = (Return (), w') ∧
    let '(a, new_content) :=
      ensureHeader SPECULATE_MARKER SPECULATE_HEADER (file_content w p) in
    out w' = out w ++ [report (name p) a] ∧
    file_content w' p = Some new_content ∧
    match a with
    | unchanged => fs w' = fs w
    | _ => node_set (root w) p (Some (File new_content)) = Some (root w')
    end.
Proof.
  intros Hfile Hdir.
  assert (p ≠ []) as Hp.
  { intros ->. destruct (Hfile (exists_at_nil w)) as [c Hc]. done. }
  unfold _ensure_speculate_header. rewrite run_bind, path_exists_run.
  destruct (exists_at w p) eqn:He.
  - destruct (Hfile eq_refl) as [c Hc]. rewrite Hc. cbn [ensureHeader].
    rewrite !run_bind, (read_text_file _ _ _ Hc).
    destruct (str_in SPECULATE_MARKER c) eqn:Hm.
    + eexists. split; [reflexivity|]. by rewrite <-Hc.
    + rewrite run_ret.
      destruct (atomic_write_run p (SPECULATE_HEADER +:+ nl +:+ nl +:+ c) w)
        as (d' & Hset & Hrun); [apply writable; auto|].
      rewrite run_bind, Hrun.
      eexists. split; [reflexivity|]. split; [done|]. split; [|done].
      by eapply file_content_written.
  - assert (file_content w p = None) as ->.
    { unfold file_content. unfold exists_at in He.
      apply bool_decide_eq_false in He.
      destruct (resolve _ _ _); [destruct He; eauto | done]. }
    cbn [ensureHeader].
    destruct (atomic_write_run p (SPECULATE_HEADER +:+ nl) w)
      as (d' & Hset & Hrun); [apply writable; auto|].
    rewrite run_bind, run_ret. cbv beta iota. rewrite run_bind, Hrun.
    eexists. split; [reflexivity|]. split; [done|]. split; [|done].
    by eapply file_content_written.
Qed.


Lemma file_content_add_out (m : message) (w : world) (p : path) :
  file_content (add_out m w) p = file_content w p.
Proof. reflexivity. Qed.

Lemma marker_once_in_header :
  occurrences SPECULATE_MARKER (SPECULATE_HEADER +:+ nl) = 1.
Proof. reflexivity. Qed.

(** The header followed by a blank line and a text without the marker
    holds the marker once. *)
Lemma marker_once_after_update (c : string) :
  str_in SPECULATE_MARKER c = false →
  occurrences SPECULATE_MARKER (SPECULATE_HEADER +:+ nl +:+ nl +:+ c) = 1.
Proof.
  intros Hc.
  change (SPECULATE_HEADER +:+ nl +:+ nl +:+ c)
    with (SPECULATE_HEADER +:+ String (ascii_of_nat 10) (nl +:+ c)).
  rewrite occurrences_sep by done.
  change (nl +:+ c) with (String (ascii_of_nat 10) c).
  rewrite occurrences_cons, (occurrences_0 _ _ Hc). reflexivity.
Qed.

(** The second of two calls finds the marker and leaves everything as
    it is. *)
Lemma ensure_header_again (p : path) (w : world) (c : string) :
  file_content w p = Some c → str_in SPECULATE_MARKER c = true →
  _ensure_speculate_header p w =
  (Return (), add_out (Info (name p +:+ " already configured")) w).
Proof.
  intros Hc Hm. unfold _ensure_speculate_header.
  rewrite run_bind, path_exists_run, (file_content_exists _ _ _ Hc).
  by rewrite !run_bind, (read_text_file _ _ _ Hc), Hm.
Qed.

(** A file that did not exist: the second call leaves the created file
    alone as well. *)
Lemma header_injection_idempotent_created (p : path) (w : world)
    (d : gmap string node) :
  exists_at w p = false →
  node_at (root w) (parent p) = Some (Dir d) →
  ∃ w1,
    _ensure_speculate_header p w = (Return (), w1) ∧
    _ensure_speculate_header p w1 =
      (Return (), add_out (report (name p) unchanged) w1) ∧
    file_content w1 p = Some (SPECULATE_HEADER +:+ nl) ∧
    occurrences SPECULATE_MARKER (SPECULATE_HEADER +:+ nl) = 1.
Proof.
  intros He Hd.
  destruct (ensure_header_run p w) as (w1 & Hrun & Hspec);
    [by rewrite He | by eauto |].
  assert (file_content w p = None) as Hnone.
  { unfold file_content. unfold exists_at in He.
    apply bool_decide_eq_false in He.
    destruct (resolve _ _ _); [destruct He; eauto | done]. }
  rewrite Hnone in Hspec. cbn [ensureHeader] in Hspec.
  destruct Hspec as (_ & Hnew & _). exists w1. split; [done|].
  split; [apply (ensure_header_again _ _ _ Hnew), marker_after_create|].
  split; [done|]. apply marker_once_in_header.
Qed.

(** C1.  Header injection is idempotent.  For every path and every
    content [C] of the file there that does not hold the marker, a
    second call after the first returns normally, reports the file as
    already configured (unchanged), leaves the file tree as the first
    call left it, so the final content is that of a single call, and
    the marker occurs exactly once in that content. *)
Theorem header_injection_idempotent (p : path) (w : world) (C : string) :
  file_content w p = Some C →
  str_in SPECULATE_MARKER C = false →
  ∃ w1 w2 final,
    _ensure_speculate_header p w = (Return (), w1) ∧
    _ensure_speculate_header p w1 = (Return (), w2) ∧
    fs w2 = fs w1 ∧
    out w2 = out w1 ++ [report (name p) unchanged] ∧
    file_content w1 p = Some final ∧
    file_content w2 p = Some final ∧
    occurrences SPECULATE_MARKER final = 1.
Proof.
  intros HC Hm.
  destruct (ensure_header_run p w) as (w1 & Hrun & Hspec).
  { intros _. by rewrite HC. }
  { by rewrite (file_content_exists _ _ _ HC). }
  rewrite HC in Hspec. cbn [ensureHeader] in Hspec. rewrite Hm in Hspec.
  destruct Hspec as (_ & Hnew & _).
  exists w1, (add_out (Info (name p +:+ " already configured")) w1),
    (SPECULATE_HEADER +:+ nl +:+ nl +:+ C).
  split; [done|]. split.
  { apply (ensure_header_again _ _ _ Hnew), marker_after_update. }
  repeat split; try done. by apply marker_once_after_update.
Qed.

(** C10.  Marker detection is a substring search over the whole file.
    A file whose content holds the marker anywhere is left
    byte-identical and reported as already configured; the header is
    not prepended, so a content that did not begin with the header does
    not begin with it afterwards either. *)
Theorem marker_anywhere_blocks_header (p : path) (w : world) (C : string) :
  file_content w p = Some C →
  str_in SPECULATE_MARKER C = true →
  ∃ w',
    _ensure_speculate_header p w = (Return (), w') ∧
    fs w' = fs w ∧
    file_content w' p = Some C ∧
    out w' = out w ++ [report (name p) unchanged] ∧
    (String.prefix SPECULATE_HEADER C = false →
     ∀ text, file_content w' p = Some text →
             String.prefix SPECULATE_HEADER text = false).
Proof.
  intros HC Hm. eexists. split; [by apply (ensure_header_again _ _ C)|].
  repeat split; try done. intros Hpre text.
  rewrite file_content_add_out, HC. by intros [= <-].
Qed.

(** ** Pattern matcher *)

Lemma replace_go_scan (old new : string) (c : ascii) (s : string) :
  replace_go old new 0 (String c s) =
  if String.prefix old (String c s)
  then new +:+ replace_go old new (String.length old - 1) s
  else String c (replace_go old new 0 s).
Proof. reflexivity. Qed.

Lemma replace_go_skip (old new : string) (k : nat) (c : ascii) (s : string) :
  replace_go old new (S k) (String c s) = replace_go old new k s.
Proof. reflexivity. Qed.

Lemma endswith_cons (c : ascii) (s suffix : string) :
  endswith (String c s) suffix =
  bool_decide (String c s = suffix) || endswith s suffix.
Proof. reflexivity. Qed.

Lemma prefix_2stars (c : ascii) (s : string) :
  String.prefix "**" (String c s) = true ↔ c = "*"%char ∧ String.prefix "*" s = true.
Proof.
  rewrite prefix_cons.
  destruct (ascii_dec "*" c) as [<-|Hc]; [tauto|].
  split; [done|]. by intros [-> _].
Qed.




Section Matcher.
Context `{Libs}.



End Matcher.

(** ** Install metadata store *)

Lemma set_fs_same (w : world) : set_fs (fs w) w = w.
Proof. by destruct w. Qed.

Lemma mkdir_existing (c : string) (w : world) (d : gmap string node) :
  fs w !! c = Some (Dir d) → mkdir_parents [c] w = (Return (), w).
Proof.
  intros Hc. unfold mkdir_parents. cbn [mkdirs app].
  rewrite (resolve_not_link _ _ (Dir d)); [|by cbn; rewrite Hc|done].
  cbn. rewrite Hc. cbn. by rewrite set_fs_same.
Qed.

Section Settings.
Context `{Libs}.

Lemma load_yaml_run (p : path) (w : world) (text : string) :
  file_content w p = Some text →
  _load_yaml p w =
  match safe_load text with
  | Some v => (Return (as_dict v), w)
  | None => (Raise YAMLError, w)
  end.
Proof.
  intros Ht. unfold _load_yaml, yaml_safe_load.
  rewrite run_bind, (read_text_file _ _ _ Ht), run_bind.
  by destruct (safe_load text) as [[]|].
Qed.

(** The optional load of the code, [_load_yaml(p) if p.exists() else
    default], when it does not raise. *)
Lemma load_if_exists_run (p : path) (w : world)
    (o : option (gmap string pyobj)) (dflt : gmap string pyobj) :
  (exists_at w p = true → is_Some (file_content w p)) →
  load_or_absent w p = Some o →
  (if exists_at w p then _load_yaml p else mret dflt) w =
  (Return (default dflt o), w).
Proof.
  unfold load_or_absent. intros Hf. destruct (exists_at w p); [|by intros [= <-]].
  destruct (Hf eq_refl) as [text Ht]. rewrite Ht, (load_yaml_run _ _ _ Ht).
  cbn. destruct (safe_load text); [|done]. by intros [= <-].
Qed.

Lemma load_or_absent_file (p : path) (w : world)
    (o : option (gmap string pyobj)) :
  load_or_absent w p = Some o →
  exists_at w p = true → is_Some (file_content w p).
Proof.
  unfold load_or_absent. intros Ho He. rewrite He in Ho.
  destruct (file_content w p); [eauto | done].
Qed.

Lemma write_settings_run (w : world) (sd : gmap string node)
    (m : gmap string pyobj) :
  fs w !! ".speculate" = Some (Dir sd) →
  ∃ w',
    (atomic_write settings_file (dump m) ≫=
       λ _, print_success "Updated .speculate/settings.yml") w = (Return (), w') ∧
    node_set (root w) settings_file (Some (File (dump m))) = Some (root w') ∧
    out w' = out w ++ [Success "Updated .speculate/settings.yml"].
Proof.
  intros Hsd.
  destruct (atomic_write_run settings_file (dump m) w) as (d' & Hset & Hrun).
  { eapply node_set_Some; [done|]. cbn. by rewrite Hsd. }
  rewrite run_bind, Hrun. eexists. split; [reflexivity|]. by split.
Qed.

Lemma update_settings_run (w : world) (sd : gmap string node)
    (prior answers : option (gmap string pyobj)) :
  fs w !! ".speculate" = Some (Dir sd) →
  load_or_absent w settings_file = Some prior →
  load_or_absent w answers_file = Some answers →
  ∃ w',
    _update_speculate_settings [] w = (Return (), w') ∧
    node_set (root w) settings_file
      (Some (File (dump (new_record w (default ∅ prior) answers)))) =
      Some (root w') ∧
    out w' = out w ++ [Success "Updated .speculate/settings.yml"].
Proof.
  intros Hsd Hprior Hans. unfold _update_speculate_settings. cbn [app].
  rewrite run_bind, (mkdir_existing _ _ _ Hsd).
  rewrite run_bind, path_exists_run. cbv beta iota.
  rewrite run_bind.
  rewrite (load_if_exists_run settings_file w prior ∅
             (load_or_absent_file _ _ _ Hprior) Hprior).
  do 2 (rewrite run_bind; cbv beta iota delta [now_isoformat version_or_unknown]).
  rewrite run_bind, path_exists_run. cbv beta iota. rewrite run_bind.
  pose proof (load_or_absent_file _ _ _ Hans) as Hf.
  unfold load_or_absent in Hans. change [".copier-answers.yml"] with answers_file.
  destruct (exists_at w answers_file).
  - destruct (Hf eq_refl) as [text Ht].
    rewrite run_bind, (load_yaml_run _ _ _ Ht). rewrite Ht in Hans. cbn in Hans.
    destruct (safe_load text); [|done]. injection Hans as <-.
    by apply write_settings_run with sd.
  - injection Hans as <-. by apply write_settings_run with sd.
Qed.

Lemma settings_dir_exists (w : world) (text : string) :
  file_content w settings_file = Some text →
  ∃ sd, fs w !! ".speculate" = Some (Dir sd).
Proof.
  intros Ht. apply file_content_exists, bool_decide_eq_true in Ht.
  apply resolve_is_Some_node_at in Ht as [x Hx].
  destruct (node_at_parent _ _ settings_file ltac:(done) Hx) as [sd Hsd].
  cbn in Hsd. destruct (fs w !! ".speculate") as [n|]; [|done].
  cbn in Hsd. injection Hsd as ->. eauto.
Qed.

Lemma load_or_absent_loaded (w : world) (p : path) (text : string) (v : pyobj) :
  file_content w p = Some text → safe_load text = Some v →
  load_or_absent w p = Some (Some (as_dict v)).
Proof.
  intros Ht Hv. unfold load_or_absent.
  rewrite (file_content_exists _ _ _ Ht), Ht. cbn. by rewrite Hv.
Qed.

Lemma new_record_standard (w : world) (prior : gmap string pyobj)
    (answers : option (gmap string pyobj)) :
  new_record w prior answers !! "last_update" = Some (PyStr (clock w)) ∧
  new_record w prior answers !! "last_cli_version" =
    Some (PyStr (default "unknown" (dist_version w))) ∧
  new_record w prior answers !! "last_docs_version" =
    match answers with
    | Some a => Some (default (PyStr "unknown") (a !! "_commit"))
    | None => prior !! "last_docs_version"
    end.
Proof. unfold new_record. destruct answers; by simplify_map_eq. Qed.

Lemma new_record_other (w : world) (prior : gmap string pyobj)
    (answers : option (gmap string pyobj)) (k : string) :
  k ∉ standard_keys → new_record w prior answers !! k = prior !! k.
Proof.
  unfold standard_keys. rewrite !not_elem_of_cons. intros (? & ? & ? & _).
  unfold new_record. destruct answers; by simplify_map_eq.
Qed.

(** C7.  The metadata step preserves unknown keys.  When the settings
    file loads to a mapping [m] (and the answers file, if there is one,
    loads), every pair [k, v] of [m] whose key is not one of the three
    standard keys is in the mapping that is dumped into the settings
    file, next to [last_update] and [last_cli_version], and next to
    [last_docs_version] when there is an answers file. *)
Theorem record_install_preserves_unknown_keys (w : world) (text : string)
    (m : gmap string pyobj) (answers : option (gmap string pyobj))
    (k : string) (v : pyobj) :
  file_content w settings_file = Some text →
  safe_load text = Some (PyDict m) →
  load_or_absent w answers_file = Some answers →
  m !! k = Some v →
  k ∉ standard_keys →
  ∃ w' m',
    _update_speculate_settings [] w = (Return (), w') ∧
    file_content w' settings_file = Some (dump m') ∧
    m' !! k = Some v ∧
    m' !! "last_update" = Some (PyStr (clock w)) ∧
    m' !! "last_cli_version" = Some (PyStr (default "unknown" (dist_version w))) ∧
    (∀ a, answers = Some a →
          m' !! "last_docs_version" = Some (default (PyStr "unknown") (a !! "_commit"))).
Proof.
  intros Ht Hm Hans Hk Hstd.
  destruct (settings_dir_exists _ _ Ht) as [sd Hsd].
  destruct (update_settings_run w sd (Some m) answers Hsd) as (w' & Hrun & Hset & _);
    [by apply (load_or_absent_loaded _ _ _ _ Ht Hm) | done |].
  destruct (new_record_standard w m answers) as (Hu & Hv & Hd).
  exists w', (new_record w m answers). split; [done|].
  split; [by eapply file_content_written|].
  split; [by rewrite new_record_other|].
  split; [done|]. split; [done|]. by intros a ->.
Qed.

(** C4, as the code has it.  A settings file whose content loads as YAML
    to something that is not a mapping counts as no prior record: the
    step returns normally and writes a record made of the standard keys
    alone.  A content that the YAML parser rejects makes the step raise
    the parser's error, and the world is left as it was.  (The answers
    file, if there is one, is taken to load.) *)
Theorem corrupt_metadata_handling (w : world) (text : string)
    (answers : option (gmap string pyobj)) :
  file_content w settings_file = Some text →
  load_or_absent w answers_file = Some answers →
  match safe_load text with
  | Some v =>
      (∀ d, v ≠ PyDict d) →
      ∃ w' m',
        _update_speculate_settings [] w = (Return (), w') ∧
        file_content w' settings_file = Some (dump m') ∧
        m' = new_record w ∅ answers ∧
        m' !! "last_update" = Some (PyStr (clock w)) ∧
        m' !! "last_cli_version" =
          Some (PyStr (default "unknown" (dist_version w))) ∧
        (∀ k, k ∉ standard_keys → m' !! k = None)
  | None => _update_speculate_settings [] w = (Raise YAMLError, w)
  end.
Proof.
  intros Ht Hans. destruct (settings_dir_exists _ _ Ht) as [sd Hsd].
  destruct (safe_load text) as [v|] eqn:Hv.
  - intros Hnd.
    destruct (update_settings_run w sd (Some (as_dict v)) answers Hsd)
      as (w' & Hrun & Hset & _);
      [by apply (load_or_absent_loaded _ _ _ _ Ht Hv) | done |].
    assert (as_dict v = ∅) as Hempty by (destruct v; try done; by destruct (Hnd d)).
    rewrite Hempty in Hset. cbn [default] in Hset.
    destruct (new_record_standard w ∅ answers) as (Hu & Hc & _).
    exists w', (new_record w ∅ answers). split; [done|].
    split; [by eapply file_content_written|]. repeat split; try done.
    intros k Hk. by rewrite new_record_other.
  - unfold _update_speculate_settings. cbn [app].
    rewrite run_bind, (mkdir_existing _ _ _ Hsd).
    rewrite run_bind, path_exists_run. cbv beta iota.
    rewrite run_bind. change [".speculate"; "settings.yml"] with settings_file.
    by rewrite (file_content_exists _ _ _ Ht), (load_yaml_run _ _ _ Ht), Hv.
Qed.

End Settings.

(** ** Symlink projector *)

Lemma node_set_child (r r' : node) (p : path) (n : string) (o : option node) :
  node_set r (p ++ [n]) o = Some r' →
  ∃ L, node_at r p = Some (Dir L) ∧
       node_at r' p = Some (Dir (partial_alter (λ _, o) n L)).
Proof.
  revert r r'. induction p as [|c p IH]; intros r r'.
  - cbn [app]. rewrite node_set_unfold. destruct r as [| |d]; try done.
    intros [= <-]. eauto.
  - change ((c :: p) ++ [n]) with (c :: (p ++ [n])).
    destruct r as [| |d]; try by rewrite node_set_unfold.
    rewrite node_set_deep by (by destruct p).
    cbn [node_at]. destruct (d !! c) as [x|]; cbn [mbind option_bind]; [|done].
    destruct (node_set x (p ++ [n]) o) as [x'|] eqn:Hs; cbn [mbind option_bind]; [|done].
    intros [= <-]. destruct (IH _ _ Hs) as (L & HL & HL'). exists L.
    split; [done|]. by rewrite lookup_insert_eq.
Qed.

(** An update below the entry [c] leaves the other entries of the
    working directory alone. *)
Lemma node_set_frame (d d' : gmap string node) (c k : string) (p : path)
    (o : option node) :
  node_set (Dir d) (c :: p) o = Some (Dir d') → k ≠ c → d' !! k = d !! k.
Proof.
  rewrite node_set_unfold. destruct p as [|c' p].
  - intros [= <-] Hk. by rewrite lookup_partial_alter_ne.
  - destruct (d !! c) as [x|]; cbn [mbind option_bind]; [|done].
    destruct (node_set x (c' :: p) o); cbn [mbind option_bind]; [|done].
    intros [= <-] Hk. by rewrite lookup_insert_ne.
Qed.

Lemma commit_Return (o : option node) (e : os_error) (w w' : world) :
  commit o e w = (Return (), w') → ∃ d, o = Some (Dir d) ∧ w' = set_fs d w.
Proof.
  unfold commit. destruct o as [[| |d]|]; try done. intros [= <-]. eauto.
Qed.

Lemma dir_names_set (w : world) (d' : gmap string node) (p : path) (n : string)
    (o : option node) :
  node_set (root w) (p ++ [n]) o = Some (Dir d') →
  dir_names (set_fs d' w) p =
  match o with
  | Some _ => {[n]} ∪ dir_names w p
  | None => dir_names w p ∖ {[n]}
  end.
Proof.
  intros Hs. destruct (node_set_child _ _ _ _ _ Hs) as (L & HL & HL').
  unfold dir_names. change (root (set_fs d' w)) with (Dir d'). rewrite HL, HL'.
  destruct o as [x|].
  - change (partial_alter _ n L) with (<[n:=x]> L). apply dom_insert_L.
  - change (partial_alter _ n L) with (delete n L). apply dom_delete_L.
Qed.

Lemma relink_names (n : string) (X : gset string) :
  {[n]} ∪ X ∖ {[n]} = {[n]} ∪ X.
Proof.
  apply set_eq. intros x.
  rewrite !elem_of_union, elem_of_difference, elem_of_singleton.
  destruct (decide (x = n)); tauto.
Qed.

Lemma mkdirs_cons (r : node) (done : path) (c : string) (todo : path) :
  mkdirs r done (c :: todo) =
  match node_at r (done ++ [c]) with
  | Some _ =>
      match resolve MAXSYMLINKS r (done ++ [c]) with
      | Some (_, Dir _) => mkdirs r (done ++ [c]) todo
      | _ => inl (OSError match todo with [] => EEXIST | _ => ENOTDIR end)
      end
  | None =>
      match node_set r (done ++ [c]) (Some (Dir ∅)) with
      | Some r' => mkdirs r' (done ++ [c]) todo
      | None => inl (OSError ENOTDIR)
      end
  end.
Proof. reflexivity. Qed.

Lemma node_at_1 (d : gmap string node) (c : string) :
  node_at (Dir d) [c] = d !! c.
Proof. cbn. by destruct (d !! c). Qed.

Lemma node_at_2 (d : gmap string node) (c c' : string) :
  node_at (Dir d) [c; c'] =
  match d !! c with
  | Some (Dir d') => d' !! c'
  | _ => None
  end.
Proof.
  cbn. destruct (d !! c) as [[| |d']|]; try done. cbn. by destruct (d' !! c').
Qed.

(** Creating the link directory touches nothing but [.cursor], and
    leaves the names in the link directory as they are: none when it is
    new. *)
Lemma mkdir_cursor_dir (w w1 : world) :
  mkdir_parents cursor_dir w = (Return (), w1) →
  (∀ k, k ≠ ".cursor" → fs w1 !! k = fs w !! k)
  ∧ dir_names w1 cursor_dir = dir_names w cursor_dir
  ∧ out w1 = out w.
Proof.
  unfold mkdir_parents, cursor_dir, dir_names, root.
  rewrite mkdirs_cons. cbn [app]. rewrite node_at_1, (node_at_2 (fs w)).
  destruct (fs w !! ".cursor") as [n|] eqn:Hn.
  - destruct (resolve MAXSYMLINKS (Dir (fs w)) [".cursor"]) as [[q [| |?]]|];
      try done.
    rewrite mkdirs_cons. cbn [app]. rewrite (node_at_2 (fs w)), Hn.
    destruct n as [|t|c].
    + by rewrite node_set_deep, Hn.
    + by rewrite node_set_deep, Hn.
    + destruct (c !! "rules") as [m|] eqn:Hm.
      * destruct (resolve MAXSYMLINKS (Dir (fs w)) [".cursor"; "rules"])
          as [[q' [| |?]]|]; try done.
        cbn [mkdirs]. intros [= <-]. cbn [fs out set_fs].
        by rewrite (node_at_2 (fs w)), Hn, Hm.
      * rewrite node_set_deep, Hn by done. cbn [mbind option_bind node_set mkdirs].
        intros [= <-]. cbn [fs out set_fs].
        split; [intros k Hk; by rewrite lookup_insert_ne|].
        rewrite node_at_2, lookup_insert_eq.
        change (partial_alter _ "rules" c) with (<["rules" := Dir ∅]> c).
        by rewrite lookup_insert_eq, dom_empty_L.
  - cbn [node_set]. rewrite mkdirs_cons. cbn [app].
    rewrite node_at_2.
    change (partial_alter _ ".cursor" (fs w)) with (<[".cursor" := Dir ∅]> (fs w)).
    rewrite lookup_insert_eq, lookup_empty, node_set_deep, lookup_insert_eq by done.
    cbn [mbind option_bind node_set mkdirs].
    intros [= <-]. cbn [fs out set_fs].
    split; [intros k Hk; by rewrite !lookup_insert_ne|].
    rewrite node_at_2, lookup_insert_eq.
    change (partial_alter _ "rules" ∅) with (<["rules" := Dir ∅]> (∅ : gmap string node)).
    by rewrite lookup_insert_eq, dom_empty_L.
Qed.

Section Projector.
Context `{Libs}.

Lemma link_names_cons (d : string) (D : list string) (I E : option (list string)) :
  link_names (d :: D) I E =
  (if _matches_patterns d I E then {[link_name d]} else ∅) ∪ link_names D I E.
Proof.
  unfold link_names. rewrite filter_cons.
  destruct (_matches_patterns d I E) eqn:Hm.
  - rewrite decide_True by done. by rewrite fmap_cons, list_to_set_cons.
  - rewrite decide_False by (by intros ?). by rewrite (left_id_L ∅ (∪)).
Qed.

(** One round of the loop: a document that does not match is counted
    and nothing changes; for a matching one the link directory gains
    its link name, whatever was there under that name. *)
Lemma link_rule_Return (I E : option (list string)) (counts counts' : nat * nat)
    (d : string) (w w' : world) :
  link_rule cursor_dir I E counts d w = (Return counts', w') →
  dir_names w' cursor_dir =
    (if _matches_patterns d I E then {[link_name d]} else ∅) ∪ dir_names w cursor_dir
  ∧ (∀ k, k ≠ ".cursor" → fs w' !! k = fs w !! k)
  ∧ out w' = out w.
Proof.
  unfold link_rule. destruct counts as [linked skipped].
  destruct (_matches_patterns d I E); cbn [negb]; cycle 1.
  { rewrite run_ret. intros [= _ <-]. by rewrite (left_id_L ∅ (∪)). }
  fold (link_name d).
  rewrite run_bind, path_exists_run. cbv beta iota. rewrite run_bind.
  unfold is_symlink at 1. cbv beta iota.
  set (link_path := cursor_dir ++ [link_name d]).
  set (target := [".."; ".."; "docs"; "general"; "agent-rules"; d]).
  assert (∀ v : world,
    (symlink_to link_path target ≫= λ _, mret (S linked, skipped)) v
      = (Return counts', w') →
    dir_names w' cursor_dir = {[link_name d]} ∪ dir_names v cursor_dir
    ∧ (∀ k, k ≠ ".cursor" → fs w' !! k = fs v !! k) ∧ out w' = out v) as Hlink.
  { intros v. rewrite run_bind. unfold symlink_to.
    destruct (node_at (root v) link_path); [done|].
    destruct (commit _ _ v) as [[[]|] v'] eqn:Hc; [|done].
    apply commit_Return in Hc as (d' & Hd' & ->). intros [= _ <-].
    split; [by apply (dir_names_set v d' cursor_dir (link_name d)
                       (Some (Symlink target)))|].
    split; [|done]. intros k Hk.
    exact (node_set_frame (fs v) d' ".cursor" k ["rules"; link_name d] _ Hd' Hk). }
  rewrite run_bind.
  destruct (node_at (root w) link_path) as [n|] eqn:Hn.
  - assert (exists_at w link_path ||
            match n with Symlink _ => true | _ => false end = true) as ->.
    { destruct n as [c|t|L]; [| apply orb_true_r |].
      - unfold exists_at. by rewrite (resolve_not_link _ _ (File c)).
      - unfold exists_at. by rewrite (resolve_not_link _ _ (Dir L)). }
    unfold unlink. rewrite Hn.
    destruct n as [c|t|L]; [| |done].
    + destruct (commit _ _ w) as [[[]|] v] eqn:Hc; [|done].
      apply commit_Return in Hc as (d' & Hd' & ->). intros Hrun.
      apply Hlink in Hrun as (Hnames & Hframe & Hout).
      rewrite Hnames, (dir_names_set w d' cursor_dir (link_name d) None Hd').
      split; [|split; [|done]].
      * apply relink_names.
      * intros k Hk. rewrite (Hframe k Hk).
        exact (node_set_frame (fs w) d' ".cursor" k ["rules"; link_name d] _ Hd' Hk).
    + destruct (commit _ _ w) as [[[]|] v] eqn:Hc; [|done].
      apply commit_Return in Hc as (d' & Hd' & ->). intros Hrun.
      apply Hlink in Hrun as (Hnames & Hframe & Hout).
      rewrite Hnames, (dir_names_set w d' cursor_dir (link_name d) None Hd').
      split; [|split; [|done]].
      * apply relink_names.
      * intros k Hk. rewrite (Hframe k Hk).
        exact (node_set_frame (fs w) d' ".cursor" k ["rules"; link_name d] _ Hd' Hk).
  - assert (exists_at w link_path = false) as ->.
    { unfold exists_at. apply bool_decide_eq_false. intros Hs.
      apply resolve_is_Some_node_at in Hs as [? ?]. congruence. }
    cbn [orb]. rewrite run_ret. apply Hlink.
Qed.

Lemma project_loop_Return (I E : option (list string)) (D : list string) :
  ∀ (counts counts' : nat * nat) (w w' : world),
  for_each D counts (link_rule cursor_dir I E) w = (Return counts', w') →
  dir_names w' cursor_dir = link_names D I E ∪ dir_names w cursor_dir
  ∧ (∀ k, k ≠ ".cursor" → fs w' !! k = fs w !! k)
  ∧ out w' = out w.
Proof.
  induction D as [|d D IH]; intros counts counts' w w'.
  - intros [= _ <-]. split; [|done].
    unfold link_names. cbn. by rewrite (left_id_L ∅ (∪)).
  - cbn [for_each]. rewrite run_bind.
    destruct (link_rule cursor_dir I E counts d w) as [[c1|] w1] eqn:H1; [|done].
    intros Hrest. apply link_rule_Return in H1 as (Hn1 & Hf1 & Ho1).
    apply IH in Hrest as (Hn & Hf & Ho).
    rewrite Hn, Hn1, link_names_cons. split.
    { by rewrite (assoc_L (∪)), (comm_L (∪) (link_names D I E)). }
    split; [|congruence]. intros k Hk. by rewrite Hf, Hf1.
Qed.

Lemma node_at_frame (d d' : gmap string node) (c : string) (p : path) :
  d' !! c = d !! c → node_at (Dir d') (c :: p) = node_at (Dir d) (c :: p).
Proof. intros Hc. cbn [node_at]. by rewrite Hc. Qed.

Lemma rules_dir_glob (w : world) (R : gmap string node) :
  node_at (root w) rules_dir = Some (Dir R) →
  exists_at w rules_dir = true ∧
  glob_names (root w) rules_dir ".md" = sorted_names R ".md".
Proof.
  intros HR. unfold exists_at, glob_names.
  by rewrite (resolve_not_link _ _ (Dir R)).
Qed.

Lemma setup_cursor_rules_Return (I E : option (list string)) (w w' : world)
    (R : gmap string node) :
  node_at (root w) rules_dir = Some (Dir R) →
  _setup_cursor_rules [] I E w = (Return (), w') →
  dir_names w' cursor_dir =
    link_names (sorted_names R ".md") I E ∪ dir_names w cursor_dir
  ∧ (∀ k, k ≠ ".cursor" → fs w' !! k = fs w !! k)
  ∧ node_at (root w') rules_dir = Some (Dir R).
Proof.
  intros HR. unfold _setup_cursor_rules. cbn [app].
  change [".cursor"; "rules"] with cursor_dir.
  change ["docs"; "general"; "agent-rules"] with rules_dir.
  rewrite run_bind.
  destruct (mkdir_parents cursor_dir w) as [[[]|] w1] eqn:Hmk; [|done].
  apply mkdir_cursor_dir in Hmk as (Hf1 & Hn1 & _).
  assert (node_at (root w1) rules_dir = Some (Dir R)) as HR1.
  { rewrite <-HR. apply node_at_frame. by apply Hf1. }
  destruct (rules_dir_glob _ _ HR1) as [Hex Hglob].
  rewrite run_bind, path_exists_run, Hex. cbn [negb].
  rewrite run_bind. unfold glob_sorted at 1. rewrite Hglob, run_bind.
  destruct (for_each _ _ _ w1) as [[[linked skipped]|] w2] eqn:Hloop; [|done].
  apply project_loop_Return in Hloop as (Hn2 & Hf2 & _).
  intros [= <-]. change (dir_names (add_out _ w2) cursor_dir)
    with (dir_names w2 cursor_dir).
  split; [by rewrite Hn2, Hn1|]. cbn [fs add_out].
  split; [intros k Hk; by rewrite Hf2, Hf1|].
  rewrite <-HR1. apply node_at_frame. by apply Hf2.
Qed.

(** C3, as the code has it.  After a run of the projection that returns
    normally, over the rule files [D] of the rules directory and the
    filter [(I, E)], the names in the link directory are the names that
    were there before the run together with
    [{stem(d) + ".mdc" : d ∈ D, d matches (I, E)}]; they are exactly
    that set when the link directory was empty or absent before. *)
Theorem projection_link_set (I E : option (list string)) (w w' : world)
    (R : gmap string node) :
  node_at (root w) rules_dir = Some (Dir R) →
  _setup_cursor_rules [] I E w = (Return (), w') →
  let D := sorted_names R ".md" in
  dir_names w' cursor_dir = link_names D I E ∪ dir_names w cursor_dir
  ∧ (dir_names w cursor_dir = ∅ → dir_names w' cursor_dir = link_names D I E).
Proof.
  intros HR Hrun D.
  destruct (setup_cursor_rules_Return _ _ _ _ _ HR Hrun) as (Hn & _).
  split; [done|]. intros Hempty. by rewrite Hn, Hempty, (right_id_L ∅ (∪)).
Qed.

(** C2, as the code has it.  Projection replaces links and removes
    none: after projecting with a filter F1 and then with a filter F2
    the same rule files, the link directory holds the names that qualify
    under F2, those that qualified under F1, and whatever it held
    before. *)
Theorem projection_accumulates (F1_I F1_E F2_I F2_E : option (list string))
    (w w1 w2 : world) (R : gmap string node) :
  node_at (root w) rules_dir = Some (Dir R) →
  _setup_cursor_rules [] F1_I F1_E w = (Return (), w1) →
  _setup_cursor_rules [] F2_I F2_E w1 = (Return (), w2) →
  let D := sorted_names R ".md" in
  node_at (root w2) rules_dir = Some (Dir R)
  ∧ dir_names w2 cursor_dir =
      link_names D F2_I F2_E ∪ link_names D F1_I F1_E ∪ dir_names w cursor_dir.
Proof.
  intros HR H1 H2 D.
  destruct (setup_cursor_rules_Return _ _ _ _ _ HR H1) as (Hn1 & _ & HR1).
  destruct (setup_cursor_rules_Return _ _ _ _ _ HR1 H2) as (Hn2 & _ & HR2).
  split; [done|]. by rewrite Hn2, Hn1, (assoc_L (∪)).
Qed.


End Projector.

(** ** Orchestrator *)





Section Orchestrator.
Context `{Libs}.























Lemma install_run (I E : option (list string)) (w : world) :
  exists_at w ["docs"] = true →
  install I E w =
  match _update_speculate_settings [] (add_out (install_header w) w) with
  | (Return _, w1) =>
      match _ensure_speculate_header ["CLAUDE.md"] w1 with
      | (Return _, w2) =>
          match _ensure_speculate_header ["AGENTS.md"] w2 with
          | (Return _, w3) =>
              match _setup_cursor_rules [] I E w3 with
              | (Return _, w4) => (Return (), install_footer w4)
              | (Raise e, w4) => (Raise e, w4)
              end
          | (Raise e, w3) => (Raise e, w3)
          end
      | (Raise e, w2) => (Raise e, w2)
      end
  | (Raise e, w1) => (Raise e, w1)
  end.
Proof.
  intros Hdocs. unfold install. cbn [app].
  rewrite run_bind, path_exists_run, Hdocs. cbn [negb].
  rewrite run_bind. unfold get_cwd at 1. cbv beta iota.
  rewrite run_bind. unfold print_header, print at 1. cbv beta iota.
  fold (install_header w). rewrite run_bind.
  destruct (_update_speculate_settings _ _) as [[[]|] w1]; [|done].
  rewrite run_bind.
  destruct (_ensure_speculate_header ["CLAUDE.md"] w1) as [[[]|] w2]; [|done].
  rewrite run_bind.
  destruct (_ensure_speculate_header ["AGENTS.md"] w2) as [[[]|] w3]; [|done].
  rewrite run_bind.
  destruct (_setup_cursor_rules [] I E w3) as [[[]|] w4]; [|done].
  reflexivity.
Qed.

Lemma install_without_docs (I E : option (list string)) (w : world) :
  exists_at w ["docs"] = false →
  install I E w =
  (Raise (SystemExit 1),
   add_out (Error "No docs/ directory found"
              "Run `speculate init` first, or manually copy docs/ to this directory.") w).
Proof.
  intros Hdocs. unfold install. cbn [app].
  by rewrite run_bind, path_exists_run, Hdocs.
Qed.


Lemma exists_at_None (w : world) (p : path) :
  node_at (root w) p = None → exists_at w p = false.
Proof.
  intros Hn. unfold exists_at. apply bool_decide_eq_false.
  intros [x Hx]%resolve_is_Some_node_at. congruence.
Qed.


End Orchestrator.

(** * Further properties of the commands *)

(** ** Pattern matcher: how the two lists interact *)

Section MatcherOrder.
Context `{Libs}.

Lemma any_match_true (f : string) (l : option (list string)) :
  any_match f l = true ↔ ∃ p, p ∈ default [] l ∧ glob_match f p = true.
Proof.
  unfold any_match. rewrite existsb_exists. unfold glob_match.
  split; intros (p & Hp & Hm); exists p; by rewrite ?list_elem_of_In in *.
Qed.

Lemma matches_patterns_true (f : string) (I E : option (list string)) :
  _matches_patterns f I E = true ↔
  (truthy I = true → any_match f I = true) ∧ any_match f E = false.
Proof.
  unfold _matches_patterns.
  destruct (truthy I), (any_match f I), (truthy E) eqn:HE, (any_match f E) eqn:Hm;
    cbn; try by intuition.
  all: destruct E as [[|q E]|]; done.
Qed.

(** X1.  Exclusion has the last word and only ever narrows the
    selection: a name that glob-matches an exclude pattern is rejected
    whatever the include list says, and a name accepted under an
    exclude list is accepted under every list with no other patterns. *)
Theorem exclude_narrows (f : string) (I E E' : option (list string)) :
  (∀ p, p ∈ default [] E → glob_match f p = true →
        _matches_patterns f I E = false)
  ∧ ((∀ p, p ∈ default [] E → p ∈ default [] E') →
     _matches_patterns f I E' = true → _matches_patterns f I E = true).
Proof.
  split.
  - intros p Hp Hm. apply not_true_is_false. rewrite matches_patterns_true.
    intros [_ HE]. assert (any_match f E = true) by (apply any_match_true; eauto).
    congruence.
  - intros Hsub. rewrite !matches_patterns_true. intros [HI HE]. split; [done|].
    apply not_true_is_false. rewrite any_match_true. intros (p & Hp & Hm).
    assert (any_match f E' = true) by (apply any_match_true; eauto). congruence.
Qed.

(** X2.  A non-empty include list only ever widens with more patterns:
    a name accepted under a non-empty include list is accepted under
    every include list that holds its patterns. *)
Theorem include_widens (f : string) (I I' : list string) (E : option (list string)) :
  I ≠ [] → (∀ p, p ∈ I → p ∈ I') →
  _matches_patterns f (Some I) E = true →
  _matches_patterns f (Some I') E = true.
Proof.
  intros Hne Hsub. rewrite !matches_patterns_true. intros [HI HE]. split; [|done].
  intros _. apply any_match_true.
  destruct I as [|p0 I]; [done|]. destruct (proj1 (any_match_true _ _) (HI eq_refl))
    as (p & Hp & Hm). exists p. split; [by apply Hsub|done].
Qed.

End MatcherOrder.

(** ** [normalize] and [stem] *)

Lemma append_length (a b : string) :
  String.length (a +:+ b) = String.length a + String.length b.
Proof.
  induction a as [|x a IH]; [done|]. rewrite append_cons.
  cbn [String.length]. by rewrite IH.
Qed.

Lemma prefix_length (sub s : string) :
  String.prefix sub s = true → String.length sub ≤ String.length s.
Proof.
  revert s. induction sub as [|y sub IH]; intros [|x s]; cbn [String.length];
    try (done || lia).
  rewrite prefix_cons. destruct (ascii_dec y x); [|done].
  intros Hp%IH. lia.
Qed.

Lemma replace_go_length (old new : string) (k : nat) (s : string) :
  String.length new ≤ String.length old → old ≠ "" →
  String.length (replace_go old new k s) ≤ String.length s.
Proof.
  intros Hlen Hne.
  assert (∀ n (s : string), String.length s ≤ n → ∀ k,
            String.length (replace_go old new k s) + Nat.min k (String.length s)
            ≤ String.length s) as Hgen; [|specialize (Hgen _ s (le_n _) k); lia].
  clear k s. induction n as [|n IH]; intros s Hs k.
  - destruct s; [cbn; lia | cbn in Hs; lia].
  - destruct s as [|c s]; [cbn; lia|]. cbn [String.length] in *.
    destruct k as [|k].
    + rewrite replace_go_scan. destruct (String.prefix old (String c s)) eqn:Hp.
      * rewrite append_length. specialize (IH s ltac:(lia) (String.length old - 1)).
        apply prefix_length in Hp. cbn [String.length] in Hp.
        destruct old as [|o old]; [done|]. cbn [String.length] in *. lia.
      * cbn [String.length]. specialize (IH s ltac:(lia) 0). lia.
    + rewrite replace_go_skip. specialize (IH s ltac:(lia) k). lia.
Qed.

Lemma str_in_2stars_cons (c : ascii) (s : string) :
  str_in "**" (String c s) = String.prefix "**" (String c s) || str_in "**" s.
Proof. reflexivity. Qed.

(** X3.  [normalize] changes exactly the patterns that hold a double
    star: a pattern is returned as it is if and only if ["**"] does not
    occur in it. *)
Theorem normalize_fixed_iff (pattern : string) :
  normalize pattern = pattern ↔ str_in "**" pattern = false.
Proof.
  unfold normalize, str_replace.
  induction pattern as [|c s IH]; [done|].
  rewrite replace_go_scan, str_in_2stars_cons.
  destruct (String.prefix "**" (String c s)) eqn:Hp.
  - split; [|done]. intros Heq. exfalso.
    change (String.length "**" - 1) with 1 in Heq.
    apply (f_equal String.length) in Heq. rewrite append_length in Heq.
    apply prefix_2stars in Hp as [_ Hp]. destruct s as [|x s]; [done|].
    rewrite replace_go_skip in Heq.
    pose proof (replace_go_length "**" "*" 0 s ltac:(cbn; lia) ltac:(done)).
    cbn [String.length] in Heq. lia.
  - cbn [orb]. rewrite <-IH. split; [by intros [= ?] | by intros ->].
Qed.

(** ** Link names *)

Lemma rfind_app_dot (x suffix : string) :
  rfind "." suffix = None →
  rfind "." (x +:+ String "." suffix) = Some (String.length x).
Proof.
  intros Hs. induction x as [|c x IH].
  - change ("" +:+ String "." suffix) with (String "." suffix).
    cbn [rfind String.length]. by rewrite Hs, bool_decide_true.
  - rewrite append_cons. cbn [rfind String.length]. by rewrite IH.
Qed.

Lemma substring_app_l (x y : string) :
  String.substring 0 (String.length x) (x +:+ y) = x.
Proof.
  induction x as [|c x IH]; [by destruct y|].
  rewrite append_cons. cbn [String.length String.substring]. by rewrite IH.
Qed.

Lemma stem_md (x : string) : x ≠ "" → stem (x +:+ ".md") = x.
Proof.
  intros Hx. unfold stem. change ".md" with (String "." "md").
  rewrite rfind_app_dot by done.
  rewrite append_length. cbn [String.length].
  rewrite bool_decide_true by (destruct x; [done | cbn; lia]).
  rewrite bool_decide_true by lia. apply substring_app_l.
Qed.

Lemma link_name_md (x : string) :
  x ≠ "" → link_name (x +:+ ".md") = x +:+ ".mdc".
Proof. intros Hx. unfold link_name. by rewrite stem_md. Qed.

(** X4.  The link of a rule file is named like the file, with [.mdc]
    for [.md]: for every non-empty [x], the stem of [x.md] is [x] and
    its link name is [x.mdc]. *)
Theorem link_name_of_md (x : string) :
  x ≠ "" →
  stem (x +:+ ".md") = x ∧ link_name (x +:+ ".md") = x +:+ ".mdc".
Proof. intros Hx. split; [by apply stem_md | by apply link_name_md]. Qed.

(** ** Symlink projector: entries, targets, counts and failure *)

Lemma node_at_app (r : node) (p q : path) :
  node_at r (p ++ q) = node_at r p ≫= λ x, node_at x q.
Proof.
  revert r. induction p as [|c p IH]; intros r; [done|].
  cbn [app node_at]. destruct r as [| |d]; try done.
  destruct (d !! c) as [x|]; cbn [mbind option_bind]; [apply IH | done].
Qed.

Lemma link_entry_Dir (w : world) (L : gmap string node) (n : string) :
  node_at (root w) cursor_dir = Some (Dir L) → link_entry w n = L !! n.
Proof.
  intros HL. unfold link_entry. rewrite node_at_app, HL. apply node_at_1.
Qed.

(** An update of one entry of the link directory, seen from the
    entries. *)
Lemma link_entry_set (w : world) (d' : gmap string node) (n m : string)
    (o : option node) :
  node_set (root w) (cursor_dir ++ [n]) o = Some (Dir d') →
  link_entry (set_fs d' w) m = if decide (m = n) then o else link_entry w m.
Proof.
  intros Hs. destruct (node_set_child _ _ _ _ _ Hs) as (L & HL & HL').
  rewrite (link_entry_Dir w L), (link_entry_Dir (set_fs d' w) _ m HL') by done.
  destruct (decide (m = n)) as [->|Hne].
  - apply lookup_partial_alter_eq.
  - by apply lookup_partial_alter_ne.
Qed.

Lemma link_entry_None_set (w : world) (n : string) (o : option node) :
  node_at (root w) cursor_dir = None ∨
  (∃ x, node_at (root w) cursor_dir = Some x ∧ ∀ L, x ≠ Dir L) →
  node_set (root w) (cursor_dir ++ [n]) o = None.
Proof.
  intros Hc. destruct (node_set (root w) (cursor_dir ++ [n]) o) as [r'|] eqn:Hs;
    [|done].
  destruct (node_set_child _ _ _ _ _ Hs) as (L & HL & _).
  destruct Hc as [Hc|(x & Hx & Hd)]; [congruence|].
  rewrite HL in Hx. injection Hx as <-. by destruct (Hd L).
Qed.

Section ProjectorEntries.
Context `{Libs}.

Lemma elem_of_link_names (n : string) (D : list string) (I E : option (list string)) :
  n ∈ link_names D I E ↔
  ∃ d, d ∈ D ∧ _matches_patterns d I E = true ∧ link_name d = n.
Proof.
  unfold link_names. rewrite elem_of_list_to_set, list_elem_of_fmap. split.
  - intros (d & -> & [Hm Hd]%list_elem_of_filter). by exists d.
  - intros (d & Hd & Hm & <-). exists d. split; [done|].
    by apply list_elem_of_filter.
Qed.

(** One round of the loop, entry by entry. *)
Lemma link_rule_entries (I E : option (list string)) (counts counts' : nat * nat)
    (d : string) (w w' : world) :
  link_rule cursor_dir I E counts d w = (Return counts', w') →
  if _matches_patterns d I E then
    counts' = (S counts.1, counts.2)
    ∧ (∀ n, link_entry w' n =
            if decide (n = link_name d) then Some (Symlink (link_target d))
            else link_entry w n)
    ∧ (∀ x, link_entry w (link_name d) ≠ Some (Dir x))
  else counts' = (counts.1, S counts.2) ∧ w' = w.
Proof.
  unfold link_rule. destruct counts as [linked skipped].
  destruct (_matches_patterns d I E); cbn [negb]; cycle 1.
  { rewrite run_ret. by intros [= <- <-]. }
  fold (link_name d). fold (link_target d).
  rewrite run_bind, path_exists_run. cbv beta iota. rewrite run_bind.
  unfold is_symlink at 1. cbv beta iota.
  set (link_path := cursor_dir ++ [link_name d]).
  change (node_at (root w) link_path) with (link_entry w (link_name d)).
  assert (∀ v : world,
    (symlink_to link_path (link_target d) ≫= λ _, mret (S linked, skipped)) v
      = (Return counts', w') →
    counts' = (S linked, skipped) ∧
    ∀ n, link_entry w' n =
         if decide (n = link_name d) then Some (Symlink (link_target d))
         else link_entry v n) as Hlink.
  { intros v. rewrite run_bind. unfold symlink_to.
    destruct (node_at (root v) link_path); [done|].
    destruct (commit _ _ v) as [[[]|] v'] eqn:Hc; [|done].
    apply commit_Return in Hc as (d' & Hd' & ->). intros [= <- <-].
    split; [done|]. intros n. by apply link_entry_set. }
  rewrite run_bind.
  destruct (link_entry w (link_name d)) as [x|] eqn:Hx.
  - assert (exists_at w link_path ||
            match x with Symlink _ => true | _ => false end = true) as ->.
    { destruct x as [c|t|L]; [| apply orb_true_r |].
      - unfold exists_at. by rewrite (resolve_not_link _ _ (File c)).
      - unfold exists_at. by rewrite (resolve_not_link _ _ (Dir L)). }
    unfold unlink. change (node_at (root w) link_path) with (link_entry w (link_name d)).
    rewrite Hx. destruct x as [c|t|L]; [| |done].
    all: destruct (commit _ _ w) as [[[]|] v] eqn:Hc; [|done].
    all: apply commit_Return in Hc as (d' & Hd' & ->); intros Hrun.
    all: apply Hlink in Hrun as (-> & Hent); split; [done|]; split; [|done].
    all: intros n; rewrite Hent, (link_entry_set w d' (link_name d) n None Hd').
    all: by destruct (decide (n = link_name d)).
  - assert (exists_at w link_path = false) as ->.
    { unfold exists_at. apply bool_decide_eq_false. intros Hs.
      apply resolve_is_Some_node_at in Hs as [? Hs]. unfold link_entry in Hx.
      subst link_path. congruence. }
    cbn [orb]. rewrite run_ret. intros (-> & Hent)%Hlink. by repeat split.
Qed.

Lemma link_names_cons_elem (n d : string) (D : list string)
    (I E : option (list string)) :
  n ∈ link_names (d :: D) I E ↔
  (_matches_patterns d I E = true ∧ n = link_name d) ∨ n ∈ link_names D I E.
Proof.
  rewrite link_names_cons, elem_of_union.
  destruct (_matches_patterns d I E).
  - rewrite elem_of_singleton. intuition.
  - rewrite elem_of_empty. intuition congruence.
Qed.

Lemma project_loop_entries (I E : option (list string)) (D : list string) :
  ∀ (counts counts' : nat * nat) (w w' : world),
  for_each D counts (link_rule cursor_dir I E) w = (Return counts', w') →
  (∀ n, n ∉ link_names D I E → link_entry w' n = link_entry w n)
  ∧ (∀ n, n ∈ link_names D I E →
        ∃ d, d ∈ D ∧ _matches_patterns d I E = true ∧ link_name d = n ∧
             link_entry w' n = Some (Symlink (link_target d)))
  ∧ counts' =
      (counts.1 + length (filter (λ d, _matches_patterns d I E = true) D),
       counts.2 + length (filter (λ d, _matches_patterns d I E ≠ true) D))
  ∧ (∀ d, d ∈ D → _matches_patterns d I E = true →
          ∀ x, link_entry w (link_name d) ≠ Some (Dir x)).
Proof.
  induction D as [|d D IH]; intros counts counts' w w'.
  - cbn [for_each]. rewrite run_ret. intros [= <- <-].
    split; [done|]. split.
    { intros n Hn. by apply elem_of_link_names in Hn as (d & Hd%elem_of_nil & _). }
    split; [destruct counts; cbn; f_equal; lia|].
    intros d Hd. by apply elem_of_nil in Hd.
  - cbn [for_each]. rewrite run_bind.
    destruct (link_rule cursor_dir I E counts d w) as [[c1|] w1] eqn:H1; [|done].
    intros Hrest. apply link_rule_entries in H1.
    apply IH in Hrest as (Hout & Hin & Hcnt & Hdir).
    rewrite !filter_cons.
    destruct (_matches_patterns d I E) eqn:Hm.
    + destruct H1 as (-> & Hent & Hnd).
      rewrite decide_True, decide_False by (done || by intros ?).
      split; [|split; [|split]].
      * intros n Hn. rewrite link_names_cons_elem in Hn.
        rewrite Hout by tauto. rewrite Hent.
        rewrite decide_False; [done|]. intros ->. apply Hn. by left.
      * intros n Hn. destruct (decide (n ∈ link_names D I E)) as [HD|HD].
        { destruct (Hin n HD) as (d' & Hd' & Hm' & Hl & He). exists d'.
          split; [by apply list_elem_of_further|done]. }
        apply link_names_cons_elem in Hn as [[_ ->]|]; [|done].
        exists d. split; [apply list_elem_of_here|]. split; [done|].
        split; [done|]. rewrite Hout by done. rewrite Hent. by rewrite decide_True.
      * rewrite Hcnt. cbn [fst snd length]. f_equal; lia.
      * intros d0 [->|Hd0]%elem_of_cons Hm0 x; [apply Hnd|].
        specialize (Hdir d0 Hd0 Hm0 x). rewrite Hent in Hdir.
        destruct (decide (link_name d0 = link_name d)) as [->|]; [apply Hnd|done].
    + destruct H1 as (-> & ->).
      rewrite decide_False, decide_True by (done || by intros ?).
      split; [|split; [|split]].
      * intros n Hn. apply Hout. rewrite link_names_cons_elem in Hn. tauto.
      * intros n [[? _]|Hn]%link_names_cons_elem; [congruence|].
        destruct (Hin n Hn) as (d' & Hd' & Hrest). exists d'.
        split; [by apply list_elem_of_further|done].
      * rewrite Hcnt. cbn [fst snd length]. f_equal; lia.
      * intros d0 [->|Hd0]%elem_of_cons Hm0 x; [congruence|]. by apply Hdir.
Qed.

Lemma mkdir_cursor_cases (w w1 : world) :
  mkdir_parents cursor_dir w = (Return (), w1) →
  w1 = w ∨
  (node_at (root w) cursor_dir = None ∧
   node_at (root w1) cursor_dir = Some (Dir ∅)).
Proof.
  unfold mkdir_parents, cursor_dir, root.
  rewrite mkdirs_cons. cbn [app]. rewrite node_at_1, (node_at_2 (fs w)).
  destruct (fs w !! ".cursor") as [n|] eqn:Hn.
  - destruct (resolve MAXSYMLINKS (Dir (fs w)) [".cursor"]) as [[q [| |?]]|];
      try done.
    rewrite mkdirs_cons. cbn [app]. rewrite (node_at_2 (fs w)), Hn.
    destruct n as [|t|c].
    + by rewrite node_set_deep, Hn.
    + by rewrite node_set_deep, Hn.
    + destruct (c !! "rules") as [m|] eqn:Hm.
      * destruct (resolve MAXSYMLINKS (Dir (fs w)) [".cursor"; "rules"])
          as [[q' [| |?]]|]; try done.
        cbn [mkdirs]. intros [= <-]. left. apply set_fs_same.
      * rewrite node_set_deep, Hn by done. cbn [mbind option_bind node_set mkdirs].
        intros [= <-]. right. split; [done|]. cbn [fs set_fs].
        rewrite node_at_2, lookup_insert_eq.
        change (partial_alter _ "rules" c) with (<["rules" := Dir ∅]> c).
        by rewrite lookup_insert_eq.
  - cbn [node_set]. rewrite mkdirs_cons. cbn [app].
    rewrite node_at_2.
    change (partial_alter _ ".cursor" (fs w)) with (<[".cursor" := Dir ∅]> (fs w)).
    rewrite lookup_insert_eq, lookup_empty, node_set_deep, lookup_insert_eq by done.
    cbn [mbind option_bind node_set mkdirs].
    intros [= <-]. right. split; [done|]. cbn [fs set_fs].
    rewrite node_at_2, lookup_insert_eq.
    change (partial_alter _ "rules" ∅) with (<["rules" := Dir ∅]> (∅ : gmap string node)).
    by rewrite lookup_insert_eq.
Qed.

(** Creating the link directory leaves its entries as they are. *)
Lemma mkdir_cursor_entries (w w1 : world) (n : string) :
  mkdir_parents cursor_dir w = (Return (), w1) →
  link_entry w1 n = link_entry w n.
Proof.
  intros [->|[Hn H1]]%mkdir_cursor_cases; [done|].
  rewrite (link_entry_Dir w1 ∅) by done. unfold link_entry.
  by rewrite node_at_app, Hn.
Qed.

Lemma setup_cursor_rules_entries (I E : option (list string)) (w w' : world)
    (R : gmap string node) :
  node_at (root w) rules_dir = Some (Dir R) →
  _setup_cursor_rules [] I E w = (Return (), w') →
  let D := sorted_names R ".md" in
  (∀ n, n ∉ link_names D I E → link_entry w' n = link_entry w n)
  ∧ (∀ n, n ∈ link_names D I E →
        ∃ d, d ∈ D ∧ _matches_patterns d I E = true ∧ link_name d = n ∧
             link_entry w' n = Some (Symlink (link_target d)))
  ∧ out w' =
      out w ++ [linked_message
                  (length (filter (λ d, _matches_patterns d I E = true) D))
                  (length (filter (λ d, _matches_patterns d I E ≠ true) D))]
  ∧ (∀ d, d ∈ D → _matches_patterns d I E = true →
          ∀ x, link_entry w (link_name d) ≠ Some (Dir x)).
Proof.
  intros HR. unfold _setup_cursor_rules. cbn [app].
  change [".cursor"; "rules"] with cursor_dir.
  change ["docs"; "general"; "agent-rules"] with rules_dir.
  rewrite run_bind.
  destruct (mkdir_parents cursor_dir w) as [[[]|] w1] eqn:Hmk; [|done].
  pose proof (λ n, mkdir_cursor_entries w w1 n Hmk) as Hent1.
  apply mkdir_cursor_dir in Hmk as (Hf1 & _ & Hout1).
  assert (node_at (root w1) rules_dir = Some (Dir R)) as HR1.
  { rewrite <-HR. apply node_at_frame. by apply Hf1. }
  destruct (rules_dir_glob _ _ HR1) as [Hex Hglob].
  rewrite run_bind, path_exists_run, Hex. cbn [negb].
  rewrite run_bind. unfold glob_sorted at 1. rewrite Hglob, run_bind.
  destruct (for_each _ _ _ w1) as [[[linked skipped]|] w2] eqn:Hloop; [|done].
  pose proof Hloop as (_ & _ & Hout2)%project_loop_Return.
  apply project_loop_entries in Hloop as (Hout & Hin & [= -> ->] & Hdir).
  intros [= <-]. split; [|split; [|split]].
  - intros n Hn. rewrite <-Hent1. by apply Hout.
  - done.
  - cbn [out add_out]. by rewrite Hout2, Hout1.
  - intros d Hd Hm x. rewrite <-Hent1. by apply Hdir.
Qed.

End ProjectorEntries.

Lemma elem_of_sorted_names (d : string) (R : gmap string node) (ext : string) :
  d ∈ sorted_names R ext ↔ is_Some (R !! d) ∧ endswith d ext = true.
Proof.
  unfold sorted_names. rewrite merge_sort_Permutation, list_elem_of_filter.
  rewrite elem_of_elements, elem_of_dom. tauto.
Qed.

Lemma endswith_inv (d suffix : string) :
  endswith d suffix = true → ∃ x, d = x +:+ suffix.
Proof.
  induction d as [|c d IH].
  - cbn. rewrite orb_false_r. intros <-%bool_decide_eq_true. by exists "".
  - rewrite endswith_cons. intros [<-%bool_decide_eq_true|Hd]%orb_true_iff.
    + by exists "".
    + destruct (IH Hd) as [x ->]. by exists (String c x).
Qed.

Lemma append_inj_r (x x' s : string) : x +:+ s = x' +:+ s → x = x'.
Proof.
  revert x'. induction x as [|c x IH]; intros [|c' x'] Heq; try done.
  - apply (f_equal String.length) in Heq.
    rewrite !append_length in Heq. cbn [String.length] in Heq. lia.
  - apply (f_equal String.length) in Heq.
    rewrite !append_length in Heq. cbn [String.length] in Heq. lia.
  - rewrite !append_cons in Heq. injection Heq as -> Heq. f_equal. by apply IH.
Qed.

(** Two rule files share a link name only when they are the files [.md]
    and [.md.md]. *)
Lemma link_name_inj (d d' : string) :
  endswith d ".md" = true → endswith d' ".md" = true →
  d ≠ ".md" → d ≠ ".md.md" →
  link_name d' = link_name d → d' = d.
Proof.
  intros [x ->]%endswith_inv [x' ->]%endswith_inv Hd1 Hd2.
  assert (x ≠ "") as Hx by (intros ->; by apply Hd1).
  rewrite (link_name_md x Hx).
  destruct (decide (x' = "")) as [->|Hx'].
  - change (link_name ("" +:+ ".md")) with (".md" +:+ ".mdc").
    intros Heq%append_inj_r. subst x. by destruct Hd2.
  - rewrite (link_name_md x' Hx'). by intros ->%append_inj_r.
Qed.

Lemma resolve_link (k : nat) (r : node) (p q t : path) :
  node_at r p = Some (Symlink t) → lexical (parent p) t = Some q →
  resolve (S k) r p = resolve k r q.
Proof. intros Hp Hq. cbn [resolve]. by rewrite Hp, Hq. Qed.

Lemma lexical_link_target (n d : string) :
  d ≠ ".." → d ≠ "." →
  lexical (parent (cursor_dir ++ [n])) (link_target d) = Some (rules_dir ++ [d]).
Proof.
  intros H1 H2. cbn. repeat (case_bool_decide; try done).
Qed.

Section ProjectorResults.
Context `{Libs}.

(** X5.  A projection that returns normally touches nothing in the
    working directory but [.cursor], and nothing in the link directory
    but the links it makes: every other entry is as it was.  This is
    for a link directory that is not reached through a link: neither
    [.cursor] nor [.cursor/rules] is a symbolic link. *)
Theorem projection_frame (I E : option (list string)) (w w' : world)
    (R : gmap string node) :
  link_dir_real w →
  node_at (root w) rules_dir = Some (Dir R) →
  _setup_cursor_rules [] I E w = (Return (), w') →
  (∀ k, k ≠ ".cursor" → fs w' !! k = fs w !! k)
  ∧ (∀ n, n ∉ link_names (sorted_names R ".md") I E →
          link_entry w' n = link_entry w n).
Proof.
  intros _ HR Hrun.
  destruct (setup_cursor_rules_Return _ _ _ _ _ HR Hrun) as (_ & Hf & _).
  destruct (setup_cursor_rules_entries _ _ _ _ _ HR Hrun) as (Hout & _).
  done.
Qed.

(** X6.  After a projection that returns normally, the entry under each
    expected link name is a symbolic link with the relative target
    [../../docs/general/agent-rules/d] of a matching rule file [d] that
    has this link name, whatever was under that name before. *)
Theorem projection_links (I E : option (list string)) (w w' : world)
    (R : gmap string node) (n : string) :
  node_at (root w) rules_dir = Some (Dir R) →
  _setup_cursor_rules [] I E w = (Return (), w') →
  n ∈ link_names (sorted_names R ".md") I E →
  ∃ d, is_Some (R !! d) ∧ endswith d ".md" = true ∧
       _matches_patterns d I E = true ∧ link_name d = n ∧
       link_entry w' n = Some (Symlink (link_target d)).
Proof.
  intros HR Hrun Hn.
  destruct (setup_cursor_rules_entries _ _ _ _ _ HR Hrun) as (_ & Hin & _).
  destruct (Hin n Hn) as (d & [Hd Hmd]%elem_of_sorted_names & Hm & Hl & He).
  by exists d.
Qed.

(** X7.  The link of a matching rule file leads to that file: after a
    projection that returns normally, reading through the link of a
    regular rule file [d] gives the content of [d].  This is for a
    link directory that is not reached through a link (neither
    [.cursor] nor [.cursor/rules] is a symbolic link), so that the
    relative target is read from [.cursor/rules] itself.  (The files
    [.md] and [.md.md] share one link name and are left out.) *)
Theorem link_reads_rule_file (I E : option (list string)) (w w' : world)
    (R : gmap string node) (d content : string) :
  link_dir_real w →
  node_at (root w) rules_dir = Some (Dir R) →
  R !! d = Some (File content) →
  endswith d ".md" = true → d ≠ ".md" → d ≠ ".md.md" →
  _matches_patterns d I E = true →
  _setup_cursor_rules [] I E w = (Return (), w') →
  file_content w' (cursor_dir ++ [link_name d]) = Some content.
Proof.
  intros _ HR Hd Hmd Hd1 Hd2 Hm Hrun.
  destruct (setup_cursor_rules_Return _ _ _ _ _ HR Hrun) as (_ & _ & HR').
  destruct (setup_cursor_rules_entries _ _ _ _ _ HR Hrun) as (_ & Hin & _).
  destruct (Hin (link_name d)) as (d' & [Hd' Hmd']%elem_of_sorted_names & _ & Hl & He).
  { apply elem_of_link_names. exists d. split; [|done].
    apply elem_of_sorted_names. by rewrite Hd. }
  apply link_name_inj in Hl as ->; [|done..].
  destruct (endswith_inv _ _ Hmd) as [x ->].
  unfold file_content. change MAXSYMLINKS with (S 39).
  rewrite (resolve_link 39 _ _ (rules_dir ++ [x +:+ ".md"]) _ He).
  - rewrite (resolve_not_link _ _ (File content)); [done| |done].
    rewrite node_at_app, HR'. cbn [mbind option_bind]. by rewrite node_at_1.
  - apply lexical_link_target; intros Heq; apply (f_equal String.length) in Heq;
      rewrite append_length in Heq; cbn in Heq; lia.
Qed.

(** X8.  A projection that returns normally reports what it did: the
    message counts the matching rule files as linked and the others as
    skipped, and the two counts add up to the number of [.md] entries
    of the rules directory. *)
Theorem projection_reports_counts (I E : option (list string)) (w w' : world)
    (R : gmap string node) :
  node_at (root w) rules_dir = Some (Dir R) →
  _setup_cursor_rules [] I E w = (Return (), w') →
  let D := sorted_names R ".md" in
  let linked := length (filter (λ d, _matches_patterns d I E = true) D) in
  let skipped := length (filter (λ d, _matches_patterns d I E ≠ true) D) in
  out w' = out w ++ [linked_message linked skipped]
  ∧ linked + skipped = length D.
Proof.
  intros HR Hrun D linked skipped.
  destruct (setup_cursor_rules_entries _ _ _ _ _ HR Hrun) as (_ & _ & Hout & _).
  split; [done|]. subst linked skipped. generalize D. clear.
  induction D as [|d D IH]; [done|]. rewrite !filter_cons.
  destruct (decide (_matches_patterns d I E = true)).
  - rewrite decide_False by tauto. cbn [length]. lia.
  - rewrite decide_True by done. cbn [length]. lia.
Qed.

End ProjectorResults.

(** ** Symlink projector: the tree after a run *)

Lemma node_set_child_eq (r : node) (p : path) (n : string) (o : option node)
    (L : gmap string node) :
  p ≠ [] → node_at r p = Some (Dir L) →
  node_set r (p ++ [n]) o =
  node_set r p (Some (Dir (partial_alter (λ _, o) n L))).
Proof.
  revert r. induction p as [|c p IH]; [done|]. intros r _.
  destruct r as [| |d]; try done. destruct p as [|c' p].
  - rewrite node_at_1. intros Hc. cbn [app].
    rewrite node_set_deep by done. by rewrite Hc.
  - cbn [node_at]. change ((c :: c' :: p) ++ [n]) with (c :: ((c' :: p) ++ [n])).
    rewrite !node_set_deep by done.
    destruct (d !! c) as [x|]; cbn [mbind option_bind]; [|done].
    intros Hx. by rewrite (IH x).
Qed.

Lemma node_set_set (r r' : node) (p : path) (o o' : option node) :
  node_set r p o = Some r' → node_set r' p o' = node_set r p o'.
Proof.
  revert r r'. induction p as [|c p IH]; intros r r'; [by destruct r|].
  destruct r as [| |d]; try by rewrite node_set_unfold.
  destruct p as [|c' p].
  - intros [= <-]. cbn [node_set]. f_equal. f_equal.
    by rewrite partial_alter_partial_alter_eq.
  - rewrite node_set_deep by done.
    destruct (d !! c) as [x|] eqn:Hx; cbn [mbind option_bind]; [|done].
    destruct (node_set x (c' :: p) o) as [x'|] eqn:Hs; cbn [mbind option_bind];
      [|done].
    intros [= <-]. rewrite node_set_deep, lookup_insert_eq by done.
    cbn [mbind option_bind]. rewrite (IH _ _ Hs), node_set_deep, Hx by done.
    cbn [mbind option_bind].
    destruct (node_set x (c' :: p) o'); cbn [mbind option_bind]; [|done].
    by rewrite insert_insert_eq.
Qed.

Lemma node_set_same (d : gmap string node) (p : path) (x : node) :
  p ≠ [] → node_at (Dir d) p = Some x → node_set (Dir d) p (Some x) = Some (Dir d).
Proof.
  revert d. induction p as [|c p IH]; [done|]. intros d _.
  destruct p as [|c' p].
  - rewrite node_at_1. intros Hc. cbn [node_set]. f_equal. f_equal.
    change (partial_alter _ c d) with (<[c:=x]> d). by apply insert_id.
  - cbn [node_at]. rewrite node_set_deep by done.
    destruct (d !! c) as [y|] eqn:Hy; cbn [mbind option_bind]; [|done].
    destruct y as [| |dy]; try done. intros Hx.
    rewrite (IH dy) by done. cbn [mbind option_bind]. by rewrite insert_id.
Qed.

Section ProjectorTree.
Context `{Libs}.

Lemma link_rule_tree (I E : option (list string)) (counts counts' : nat * nat)
    (d : string) (w w' : world) (L : gmap string node) :
  node_at (root w) cursor_dir = Some (Dir L) →
  link_rule cursor_dir I E counts d w = (Return counts', w') →
  node_set (root w) cursor_dir (Some (Dir (relink I E L d))) = Some (root w').
Proof.
  intros HL. unfold link_rule, relink. destruct counts as [linked skipped].
  destruct (_matches_patterns d I E); cbn [negb]; cycle 1.
  { rewrite run_ret. intros [= _ <-]. by apply node_set_same. }
  fold (link_name d). fold (link_target d).
  rewrite run_bind, path_exists_run. cbv beta iota. rewrite run_bind.
  unfold is_symlink at 1. cbv beta iota.
  set (link_path := cursor_dir ++ [link_name d]).
  assert (∀ (v : world) (Lv : gmap string node),
    node_at (root v) cursor_dir = Some (Dir Lv) →
    (symlink_to link_path (link_target d) ≫= λ _, mret (S linked, skipped)) v
      = (Return counts', w') →
    node_set (root v) cursor_dir
      (Some (Dir (<[link_name d := Symlink (link_target d)]> Lv))) =
    Some (root w')) as Hlink.
  { intros v Lv HLv. rewrite run_bind. unfold symlink_to.
    destruct (node_at (root v) link_path); [done|].
    destruct (commit _ _ v) as [[[]|] v'] eqn:Hc; [|done].
    apply commit_Return in Hc as (d' & Hd' & ->). intros [= _ <-].
    subst link_path. by rewrite (node_set_child_eq _ _ _ _ Lv) in Hd'. }
  rewrite run_bind.
  destruct (exists_at w link_path || _) eqn:Hex.
  - unfold unlink. destruct (node_at (root w) link_path) as [[| |]|]; try done.
    all: destruct (commit _ _ w) as [[[]|] v] eqn:Hc; [|done].
    all: apply commit_Return in Hc as (d' & Hd' & ->); intros Hrun.
    all: subst link_path; rewrite (node_set_child_eq _ _ _ _ L) in Hd' by done.
    all: apply (Hlink _ (delete (link_name d) L)) in Hrun;
      [|by eapply node_at_set].
    all: rewrite (node_set_set _ _ _ _ _ Hd') in Hrun.
    all: by rewrite insert_delete_eq in Hrun.
  - rewrite run_ret. by apply Hlink.
Qed.

Lemma project_loop_tree (I E : option (list string)) (D : list string) :
  ∀ (counts counts' : nat * nat) (w w' : world) (L : gmap string node),
  node_at (root w) cursor_dir = Some (Dir L) →
  for_each D counts (link_rule cursor_dir I E) w = (Return counts', w') →
  node_set (root w) cursor_dir (Some (Dir (projected I E D L))) = Some (root w').
Proof.
  induction D as [|d D IH]; intros counts counts' w w' L HL.
  - cbn [for_each]. rewrite run_ret. intros [= _ <-]. by apply node_set_same.
  - cbn [for_each]. rewrite run_bind.
    destruct (link_rule cursor_dir I E counts d w) as [[c1|] w1] eqn:H1; [|done].
    intros Hrest. apply (link_rule_tree _ _ _ _ _ _ _ L HL) in H1.
    apply (IH _ _ _ _ (relink I E L d)) in Hrest; [|by eapply node_at_set].
    by rewrite (node_set_set _ _ _ _ _ H1) in Hrest.
Qed.

(** A matching rule file is linked only into a real directory. *)
Lemma link_rule_needs_dir (I E : option (list string)) (counts counts' : nat * nat)
    (d : string) (w w' : world) :
  _matches_patterns d I E = true →
  link_rule cursor_dir I E counts d w = (Return counts', w') →
  ∃ L, node_at (root w) cursor_dir = Some (Dir L).
Proof.
  intros Hm. unfold link_rule. destruct counts as [linked skipped].
  rewrite Hm. cbn [negb]. fold (link_name d).
  rewrite run_bind, path_exists_run. cbv beta iota. rewrite run_bind.
  unfold is_symlink at 1. cbv beta iota.
  set (link_path := cursor_dir ++ [link_name d]).
  set (target := [".."; ".."; "docs"; "general"; "agent-rules"; d]).
  rewrite run_bind.
  destruct (exists_at w link_path || _) eqn:Hex.
  - unfold unlink. destruct (node_at (root w) link_path) as [[| |]|]; try done.
    all: destruct (commit _ _ w) as [[[]|] v] eqn:Hc; [|done].
    all: apply commit_Return in Hc as (d' & Hd' & ->); intros _.
    all: apply node_set_child in Hd' as (L & HL & _); eauto.
  - rewrite run_ret, run_bind. unfold symlink_to.
    destruct (node_at (root w) link_path); [done|].
    destruct (commit _ _ w) as [[[]|] v'] eqn:Hc; [|done].
    apply commit_Return in Hc as (d' & Hd' & ->). intros _.
    apply node_set_child in Hd' as (L & HL & _); eauto.
Qed.

(** Without a real link directory only a loop without matching rule
    file returns, and it changes nothing. *)
Lemma project_loop_no_dir (I E : option (list string)) (D : list string) :
  ∀ (counts counts' : nat * nat) (w w' : world),
  (∀ L, node_at (root w) cursor_dir ≠ Some (Dir L)) →
  for_each D counts (link_rule cursor_dir I E) w = (Return counts', w') →
  root w' = root w.
Proof.
  induction D as [|d D IH]; intros counts counts' w w' HL.
  - cbn [for_each]. rewrite run_ret. by intros [= _ <-].
  - cbn [for_each]. rewrite run_bind.
    destruct (link_rule cursor_dir I E counts d w) as [[c1|] w1] eqn:H1; [|done].
    intros Hrest. destruct (_matches_patterns d I E) eqn:Hm.
    + destruct (link_rule_needs_dir _ _ _ _ _ _ _ Hm H1) as [L HLw].
      by destruct (HL L).
    + apply link_rule_entries in H1. rewrite Hm in H1. destruct H1 as (_ & ->).
      exact (IH _ _ _ _ HL Hrest).
Qed.

Lemma relink_union (I E : option (list string)) (L : gmap string node)
    (d : string) :
  relink I E L d = relink I E ∅ d ∪ L.
Proof.
  unfold relink. destruct (_matches_patterns d I E).
  - by rewrite insert_union_singleton_l, insert_empty.
  - by rewrite (left_id_L ∅ (∪)).
Qed.

Lemma projected_union (I E : option (list string)) (D : list string) :
  ∀ L, projected I E D L = projected I E D ∅ ∪ L.
Proof.
  unfold projected. induction D as [|d D IH]; intros L; cbn [foldl].
  - by rewrite (left_id_L ∅ (∪)).
  - rewrite (IH (relink I E L d)), (IH (relink I E ∅ d)), (relink_union _ _ L).
    by rewrite (assoc_L (∪)).
Qed.

Lemma projected_idemp (I E : option (list string)) (D : list string)
    (L : gmap string node) :
  projected I E D (projected I E D L) = projected I E D L.
Proof.
  rewrite (projected_union _ _ _ (projected I E D L)), (projected_union _ _ _ L).
  by rewrite (assoc_L (∪)), (idemp_L (∪)).
Qed.

End ProjectorTree.

(** ** Symlink projector: when it returns and when it raises *)

Lemma mkdir_cursor_runs (w : world) (L : gmap string node) :
  link_dir_content w = Some L →
  ∃ w0, mkdir_parents cursor_dir w = (Return (), w0) ∧
        node_at (root w0) cursor_dir = Some (Dir L).
Proof.
  unfold link_dir_content, mkdir_parents, cursor_dir, root.
  rewrite mkdirs_cons. cbn [app]. rewrite node_at_1.
  destruct (fs w !! ".cursor") as [[| |C]|] eqn:Hn; try done.
  - rewrite (resolve_not_link _ _ (Dir C)); [|by rewrite node_at_1|done].
    rewrite mkdirs_cons. cbn [app]. rewrite (node_at_2 (fs w)), Hn.
    destruct (C !! "rules") as [[| |L']|] eqn:Hm; try done.
    + intros [= ->].
      rewrite (resolve_not_link _ _ (Dir L)); [|by rewrite node_at_2, Hn|done].
      cbn [mkdirs]. exists w. rewrite set_fs_same. split; [done|].
      by rewrite node_at_2, Hn.
    + intros [= <-]. rewrite node_set_deep, Hn by done.
      cbn [mbind option_bind node_set mkdirs]. eexists. split; [done|].
      cbn [fs set_fs]. rewrite node_at_2, lookup_insert_eq.
      change (partial_alter _ "rules" C) with (<["rules" := Dir ∅]> C).
      by rewrite lookup_insert_eq.
  - intros [= <-]. cbn [node_set]. rewrite mkdirs_cons. cbn [app].
    rewrite node_at_2.
    change (partial_alter _ ".cursor" (fs w)) with (<[".cursor" := Dir ∅]> (fs w)).
    rewrite lookup_insert_eq, lookup_empty, node_set_deep, lookup_insert_eq by done.
    cbn [mbind option_bind node_set mkdirs]. eexists. split; [done|].
    cbn [fs set_fs]. rewrite node_at_2, lookup_insert_eq.
    change (partial_alter _ "rules" ∅) with (<["rules" := Dir ∅]> (∅ : gmap string node)).
    by rewrite lookup_insert_eq.
Qed.

Section ProjectorRuns.
Context `{Libs}.

Lemma link_rule_runs (I E : option (list string)) (counts : nat * nat)
    (d : string) (w : world) (L : gmap string node) :
  node_at (root w) cursor_dir = Some (Dir L) →
  _matches_patterns d I E = true →
  (∀ x, L !! link_name d ≠ Some (Dir x)) →
  ∃ counts' w', link_rule cursor_dir I E counts d w = (Return counts', w').
Proof.
  intros HL Hm Hnd. unfold link_rule. destruct counts as [linked skipped].
  rewrite Hm. cbn [negb]. fold (link_name d). fold (link_target d).
  rewrite run_bind, path_exists_run. cbv beta iota. rewrite run_bind.
  unfold is_symlink at 1. cbv beta iota.
  set (link_path := cursor_dir ++ [link_name d]).
  assert (∀ (v : world) (Lv : gmap string node),
    node_at (root v) cursor_dir = Some (Dir Lv) →
    Lv !! link_name d = None →
    ∃ counts' w',
      (symlink_to link_path (link_target d) ≫= λ _, mret (S linked, skipped)) v
      = (Return counts', w')) as Hlink.
  { intros v Lv HLv Hnone. rewrite run_bind. unfold symlink_to.
    change (node_at (root v) link_path) with (link_entry v (link_name d)).
    rewrite (link_entry_Dir v Lv), Hnone by done.
    destruct (node_set_Some (root v) link_path
                (Some (Symlink (link_target d))) Lv) as [r' Hr']; [done|done|].
    rewrite Hr'. destruct (node_set_is_dir _ _ _ _ Hr') as [d' ->].
    cbn [commit]. rewrite run_ret. eauto. }
  assert (∀ n, L !! link_name d = Some n → (∀ x, n ≠ Dir x) →
    ∃ counts' w',
      (unlink link_path ≫= λ _,
       symlink_to link_path (link_target d) ≫= λ _, mret (S linked, skipped)) w
      = (Return counts', w')) as Hunlink.
  { intros n Hn Hx. rewrite run_bind. unfold unlink.
    change (node_at (root w) link_path) with (link_entry w (link_name d)).
    rewrite (link_entry_Dir w L), Hn by done.
    destruct (node_set_Some (root w) link_path None L) as [r' Hr']; [done|done|].
    rewrite Hr'. destruct (node_set_is_dir _ _ _ _ Hr') as [d' ->].
    destruct (node_set_child _ _ _ _ _ Hr') as (L0 & HL0 & HL').
    assert (L0 = L) as -> by congruence.
    destruct n as [c|t|x]; [| |by destruct (Hx x)]; cbn [commit].
    all: apply (Hlink (set_fs d' w) _ HL'), lookup_partial_alter_eq. }
  change (node_at (root w) link_path) with (link_entry w (link_name d)).
  rewrite (link_entry_Dir w L) by done.
  destruct (L !! link_name d) as [n|] eqn:Hn.
  - assert (exists_at w link_path ||
            match n with Symlink _ => true | _ => false end = true) as ->.
    { destruct n as [c|t|x]; [| apply orb_true_r |by destruct (Hnd x)].
      unfold exists_at. rewrite (resolve_not_link _ _ (File c)); [done| |done].
      change (node_at (root w) link_path) with (link_entry w (link_name d)).
      by rewrite (link_entry_Dir w L). }
    apply (Hunlink n); [done|]. intros x ->. by destruct (Hnd x).
  - rewrite exists_at_None; cycle 1.
    { change (node_at (root w) link_path) with (link_entry w (link_name d)).
      by rewrite (link_entry_Dir w L). }
    cbn [orb]. rewrite run_bind, run_ret. by apply (Hlink w L).
Qed.

Lemma link_rule_blocked (I E : option (list string)) (counts : nat * nat)
    (d : string) (w : world) (L : gmap string node) (x : gmap string node) :
  node_at (root w) cursor_dir = Some (Dir L) →
  _matches_patterns d I E = true →
  L !! link_name d = Some (Dir x) →
  link_rule cursor_dir I E counts d w = (Raise (OSError EISDIR), w).
Proof.
  intros HL Hm Hx. unfold link_rule. destruct counts as [linked skipped].
  rewrite Hm. cbn [negb]. fold (link_name d).
  rewrite run_bind, path_exists_run. cbv beta iota. rewrite run_bind.
  unfold is_symlink at 1. cbv beta iota.
  set (link_path := cursor_dir ++ [link_name d]).
  assert (node_at (root w) link_path = Some (Dir x)) as Hn.
  { change (node_at (root w) link_path) with (link_entry w (link_name d)).
    by rewrite (link_entry_Dir w L). }
  unfold exists_at. rewrite (resolve_not_link _ _ (Dir x)) by done.
  rewrite bool_decide_true by eauto. cbn [orb].
  rewrite !run_bind. unfold unlink. by rewrite Hn.
Qed.

Lemma relink_lookup_ne (I E : option (list string)) (L : gmap string node)
    (d : string) (n : string) :
  n ≠ link_name d → relink I E L d !! n = L !! n.
Proof.
  intros Hn. unfold relink. destruct (_matches_patterns d I E); [|done].
  by rewrite lookup_insert_ne.
Qed.

Lemma project_loop_runs (I E : option (list string)) (D : list string) :
  ∀ (counts : nat * nat) (w : world) (L : gmap string node),
  node_at (root w) cursor_dir = Some (Dir L) →
  (∀ d, d ∈ D → _matches_patterns d I E = true →
        ∀ x, L !! link_name d ≠ Some (Dir x)) →
  ∃ counts' w', for_each D counts (link_rule cursor_dir I E) w = (Return counts', w').
Proof.
  induction D as [|d D IH]; intros counts w L HL Hfree.
  - cbn [for_each]. rewrite run_ret. eauto.
  - cbn [for_each]. rewrite run_bind.
    assert (∃ c1 w1, link_rule cursor_dir I E counts d w = (Return c1, w1))
      as (c1 & w1 & H1).
    { destruct (_matches_patterns d I E) eqn:Hm.
      - apply (link_rule_runs _ _ _ _ _ L); [done|done|].
        apply Hfree; [apply list_elem_of_here|done].
      - unfold link_rule. destruct counts. rewrite Hm. cbn [negb].
        rewrite run_ret. eauto. }
    rewrite H1. pose proof (link_rule_tree _ _ _ _ _ _ _ L HL H1) as Ht.
    apply (IH c1 w1 (relink I E L d)); [by eapply node_at_set|].
    intros d' Hd' Hm' x. unfold relink.
    destruct (_matches_patterns d I E); [|by apply Hfree; [apply list_elem_of_further|]].
    destruct (decide (link_name d' = link_name d)) as [->|Hne].
    + by rewrite lookup_insert_eq.
    + rewrite lookup_insert_ne by done.
      by apply Hfree; [apply list_elem_of_further|].
Qed.

Lemma project_loop_blocked (I E : option (list string)) (D : list string) :
  ∀ (counts : nat * nat) (w : world) (L : gmap string node) (d : string)
    (x : gmap string node),
  node_at (root w) cursor_dir = Some (Dir L) →
  d ∈ D → _matches_patterns d I E = true → L !! link_name d = Some (Dir x) →
  ∃ w', for_each D counts (link_rule cursor_dir I E) w =
          (Raise (OSError EISDIR), w') ∧ out w' = out w.
Proof.
  induction D as [|d0 D IH]; intros counts w L d x HL Hd Hm Hx.
  { by apply elem_of_nil in Hd. }
  cbn [for_each]. rewrite run_bind.
  destruct (_matches_patterns d0 I E) eqn:Hm0.
  - destruct (L !! link_name d0) as [[c|t|x0]|] eqn:H0.
    3: { rewrite (link_rule_blocked _ _ _ _ _ L x0) by done. eauto. }
    all: destruct (link_rule_runs I E counts d0 w L HL Hm0) as (c1 & w1 & H1);
      [by rewrite H0|].
    all: rewrite H1; pose proof (link_rule_tree _ _ _ _ _ _ _ L HL H1) as Ht.
    all: pose proof (link_rule_Return _ _ _ _ _ _ _ H1) as (_ & _ & Ho).
    all: rewrite <-Ho.
    all: apply elem_of_cons in Hd as [->|Hd]; [congruence|].
    all: apply (IH c1 w1 (relink I E L d0) d x); [by eapply node_at_set|done..|].
    all: rewrite relink_lookup_ne; [done|congruence].
  - assert (link_rule cursor_dir I E counts d0 w =
            (Return (counts.1, S counts.2), w)) as ->.
    { unfold link_rule. destruct counts. by rewrite Hm0. }
    apply elem_of_cons in Hd as [->|Hd]; [congruence|].
    by apply (IH _ w L d x).
Qed.

End ProjectorRuns.

Lemma link_dir_content_Dir (w : world) (L : gmap string node) :
  node_at (root w) cursor_dir = Some (Dir L) → link_dir_content w = Some L.
Proof.
  unfold link_dir_content, cursor_dir, root. rewrite node_at_2.
  destruct (fs w !! ".cursor") as [[| |C]|]; try done. by intros ->.
Qed.

Section ProjectorOutcome.
Context `{Libs}.

(** The three steps of a projection over an existing rules
    directory. *)
Lemma setup_cursor_rules_steps (I E : option (list string)) (w : world)
    (R : gmap string node) :
  node_at (root w) rules_dir = Some (Dir R) →
  _setup_cursor_rules [] I E w =
  match mkdir_parents cursor_dir w with
  | (Return _, w0) =>
      match for_each (sorted_names R ".md") (0, 0)
              (link_rule cursor_dir I E) w0 with
      | (Return counts, w1) =>
          (Return (), add_out (linked_message counts.1 counts.2) w1)
      | (Raise e, w1) => (Raise e, w1)
      end
  | (Raise e, w0) => (Raise e, w0)
  end.
Proof.
  intros HR. unfold _setup_cursor_rules. cbn [app].
  change [".cursor"; "rules"] with cursor_dir.
  change ["docs"; "general"; "agent-rules"] with rules_dir.
  rewrite run_bind.
  destruct (mkdir_parents cursor_dir w) as [[[]|] w0] eqn:Hmk; [|done].
  apply mkdir_cursor_dir in Hmk as (Hf1 & _ & _).
  assert (node_at (root w0) rules_dir = Some (Dir R)) as HR0.
  { rewrite <-HR. apply node_at_frame. by apply Hf1. }
  destruct (rules_dir_glob _ _ HR0) as [Hex Hglob].
  rewrite run_bind, path_exists_run, Hex. cbn [negb].
  rewrite run_bind. unfold glob_sorted at 1. rewrite Hglob, run_bind.
  by destruct (for_each _ _ _ w0) as [[[linked skipped]|] w1].
Qed.

(** X9.  A projection returns normally when the rules directory exists,
    nothing but a directory is in the place of [.cursor] and of
    [.cursor/rules], and no link name of a matching rule file is taken
    by a directory.  The link directory then holds what it held before
    with, for each matching rule file in the order of the names, its
    link put under its link name. *)
Theorem projection_succeeds (I E : option (list string)) (w : world)
    (R L : gmap string node) :
  node_at (root w) rules_dir = Some (Dir R) →
  link_dir_content w = Some L →
  (∀ d x, is_Some (R !! d) → endswith d ".md" = true →
          _matches_patterns d I E = true → L !! link_name d ≠ Some (Dir x)) →
  ∃ w', _setup_cursor_rules [] I E w = (Return (), w') ∧
        node_at (root w') cursor_dir =
          Some (Dir (projected I E (sorted_names R ".md") L)).
Proof.
  intros HR HL Hfree. rewrite (setup_cursor_rules_steps _ _ _ R HR).
  destruct (mkdir_cursor_runs w L HL) as (w0 & -> & HL0).
  destruct (project_loop_runs I E (sorted_names R ".md") (0, 0) w0 L HL0)
    as (counts & w1 & Hloop).
  { intros d [Hd Hmd]%elem_of_sorted_names Hm x. by apply Hfree. }
  rewrite Hloop. eexists. split; [done|].
  apply project_loop_tree with (L := L) in Hloop; [|done].
  change (root (add_out _ w1)) with (root w1). by eapply node_at_set.
Qed.

(** X10.  A directory under the link name of a matching rule file stops
    the projection: it raises an OS error and prints nothing, the
    closing message included. *)
Theorem projection_blocked_by_directory (I E : option (list string))
    (w : world) (R x : gmap string node) (d : string) :
  node_at (root w) rules_dir = Some (Dir R) →
  is_Some (R !! d) → endswith d ".md" = true →
  _matches_patterns d I E = true →
  link_entry w (link_name d) = Some (Dir x) →
  ∃ e w', _setup_cursor_rules [] I E w = (Raise (OSError e), w') ∧
          out w' = out w.
Proof.
  intros HR Hd Hmd Hm Hx. rewrite (setup_cursor_rules_steps _ _ _ R HR).
  unfold link_entry in Hx. rewrite node_at_app in Hx.
  destruct (node_at (root w) cursor_dir) as [[| |L]|] eqn:HL; try done.
  cbn [mbind option_bind] in Hx. rewrite node_at_1 in Hx.
  destruct (mkdir_cursor_runs w L (link_dir_content_Dir _ _ HL)) as (w0 & Hmk & HL0).
  rewrite Hmk. apply mkdir_cursor_dir in Hmk as (_ & _ & Hout).
  destruct (project_loop_blocked I E (sorted_names R ".md") (0, 0) w0 L d x)
    as (w' & -> & Ho); [done|by apply elem_of_sorted_names|done|done|].
  exists EISDIR, w'. split; [done|congruence].
Qed.

(** X11.  Projecting again with the same patterns changes nothing: when
    a projection has returned normally and left a link directory,
    a second projection with the same include and exclude patterns
    that returns normally leaves the whole file tree as the first one
    left it. *)
Theorem projection_rerun_changes_nothing (I E : option (list string))
    (w w1 w2 : world) (R L1 : gmap string node) :
  node_at (root w) rules_dir = Some (Dir R) →
  _setup_cursor_rules [] I E w = (Return (), w1) →
  node_at (root w1) cursor_dir = Some (Dir L1) →
  _setup_cursor_rules [] I E w1 = (Return (), w2) →
  fs w2 = fs w1.
Proof.
  intros HR Hrun1 HL1 Hrun2.
  destruct (setup_cursor_rules_Return _ _ _ _ _ HR Hrun1) as (_ & _ & HR1).
  rewrite (setup_cursor_rules_steps _ _ _ R HR) in Hrun1.
  rewrite (setup_cursor_rules_steps _ _ _ R HR1) in Hrun2.
  destruct (mkdir_parents cursor_dir w) as [[[]|] v0] eqn:Hmk1; [|done].
  destruct (for_each _ _ _ v0) as [[c1|] v1] eqn:Hloop1; [|done].
  assert (root w1 = root v1) as Hroot1 by (by injection Hrun1 as <-).
  clear Hrun1.
  assert (∃ L0, node_at (root v0) cursor_dir = Some (Dir L0)) as [L0 HL0].
  { destruct (node_at (root v0) cursor_dir) as [[| |L0]|] eqn:H0; [| |by eauto|].
    all: apply project_loop_no_dir in Hloop1; [|by rewrite H0].
    all: rewrite Hroot1, Hloop1 in HL1; congruence. }
  pose proof (project_loop_tree _ _ _ _ _ _ _ L0 HL0 Hloop1) as Ht1.
  assert (L1 = projected I E (sorted_names R ".md") L0) as HL1eq.
  { apply node_at_set in Ht1; [|done]. rewrite Hroot1 in HL1. congruence. }
  destruct (mkdir_cursor_runs w1 L1 (link_dir_content_Dir _ _ HL1))
    as (u0 & Hmk2 & HL2).
  rewrite Hmk2 in Hrun2.
  apply mkdir_cursor_cases in Hmk2 as [->|[Hnone _]]; [|congruence].
  destruct (for_each _ _ _ w1) as [[c2|] u1] eqn:Hloop2; [|done].
  injection Hrun2 as <-.
  apply project_loop_tree with (L := L1) in Hloop2; [|done].
  rewrite HL1eq, projected_idemp, <-HL1eq in Hloop2.
  unfold root in Hloop2 at 1. rewrite node_set_same in Hloop2 by done.
  cbn [fs add_out]. unfold root in Hloop2. by injection Hloop2 as ->.
Qed.

End ProjectorOutcome.

(** ** What the commands leave alone *)

Lemma touches_ret {A} (ks : list string) (a : A) : touches ks (mret a : M A).
Proof. by intros w k _. Qed.

Lemma touches_bind {A B} (ks : list string) (m : M A) (f : A → M B) :
  touches ks m → (∀ a, touches ks (f a)) → touches ks (m ≫= f).
Proof.
  intros Hm Hf w k Hk. rewrite run_bind. specialize (Hm w k Hk).
  destruct (m w) as [[a|e] w1]; cbn [snd] in *; [|done].
  by rewrite (Hf a w1 k Hk).
Qed.

Lemma touches_mono {A} (ks ks' : list string) (m : M A) :
  ks ⊆ ks' → touches ks m → touches ks' m.
Proof. intros Hs Hm w k Hk. apply Hm. intros Hin. by apply Hk, Hs. Qed.

Lemma touches_reads {A} (ks : list string) (m : M A) :
  (∀ w, fs (m w).2 = fs w) → touches ks m.
Proof. intros Hm w k _. by rewrite Hm. Qed.

Lemma touches_if {A} (ks : list string) (b : bool) (m1 m2 : M A) :
  touches ks m1 → touches ks m2 → touches ks (if b then m1 else m2).
Proof. by destruct b. Qed.

Lemma touches_print (ks : list string) (m : message) : touches ks (print m).
Proof. by apply touches_reads. Qed.

Lemma touches_raise {A} (ks : list string) (e : exn) :
  touches ks (raise e : M A).
Proof. by apply touches_reads. Qed.

Lemma touches_path_exists (ks : list string) (p : path) :
  touches ks (path_exists p).
Proof. by apply touches_reads. Qed.

Lemma touches_is_symlink (ks : list string) (p : path) :
  touches ks (is_symlink p).
Proof. by apply touches_reads. Qed.

Lemma touches_read_text (ks : list string) (p : path) :
  touches ks (read_text p).
Proof.
  apply touches_reads. intros w. unfold read_text.
  by destruct (resolve _ _ _) as [[? [| |]]|].
Qed.

Lemma touches_commit (c : string) (p : path) (o : option node) (e : os_error)
    (w : world) (k : string) :
  k ≠ c →
  fs (commit (node_set (root w) (c :: p) o) e w).2 !! k = fs w !! k.
Proof.
  intros Hk. unfold commit.
  destruct (node_set (root w) (c :: p) o) as [[| |d']|] eqn:Hs; try done.
  cbn [snd fs set_fs]. by eapply node_set_frame.
Qed.

Lemma touches_atomic_write (c : string) (p : path) (s : string) :
  touches [c] (atomic_write (c :: p) s).
Proof.
  intros w k [Hk _]%not_elem_of_cons. unfold atomic_write.
  by apply touches_commit.
Qed.

Lemma touches_unlink (c : string) (p : path) : touches [c] (unlink (c :: p)).
Proof.
  intros w k [Hk _]%not_elem_of_cons. unfold unlink.
  destruct (node_at (root w) (c :: p)) as [[| |]|]; try done.
  all: by apply touches_commit.
Qed.

Lemma touches_symlink_to (c : string) (p t : path) :
  touches [c] (symlink_to (c :: p) t).
Proof.
  intros w k [Hk _]%not_elem_of_cons. unfold symlink_to.
  destruct (node_at (root w) (c :: p)); [done|].
  by apply touches_commit.
Qed.

Lemma mkdirs_frame (c k : string) (todo : path) :
  ∀ (done rest : path) (d d' : gmap string node),
  done ++ todo = c :: rest → k ≠ c →
  mkdirs (Dir d) done todo = inr (Dir d') → d' !! k = d !! k.
Proof.
  induction todo as [|c' todo IH]; intros done rest d d' Hpath Hk.
  - cbn [mkdirs]. by intros [= <-].
  - rewrite mkdirs_cons.
    assert ((done ++ [c']) ++ todo = c :: rest) as Hpath'.
    { by rewrite <-(assoc_L (++)). }
    assert (∃ q, done ++ [c'] = c :: q) as [q Hq].
    { destruct done as [|c0 done]; cbn [app] in *.
      - injection Hpath as -> _. eauto.
      - injection Hpath as -> _. eauto. }
    destruct (node_at (Dir d) (done ++ [c'])).
    + destruct (resolve _ _ _) as [[? [| |?]]|]; try done. by apply (IH _ rest).
    + destruct (node_set (Dir d) (done ++ [c']) _) as [r'|] eqn:Hs; [|done].
      destruct (node_set_is_dir _ _ _ _ Hs) as [d1 ->].
      intros Hrec. rewrite (IH _ rest d1 d' Hpath' Hk Hrec).
      rewrite Hq in Hs. by eapply node_set_frame.
Qed.

Lemma touches_mkdir_parents (c : string) (p : path) :
  touches [c] (mkdir_parents (c :: p)).
Proof.
  intros w k Hk%not_elem_of_cons. unfold mkdir_parents.
  destruct (mkdirs (root w) [] (c :: p)) as [e|[| |d']] eqn:Hmk; try done.
  cbn [snd fs set_fs]. destruct Hk as [Hk _].
  by apply (mkdirs_frame c k (c :: p) [] p (fs w) d').
Qed.

Lemma touches_for_each {A S} (ks : list string) (l : list A)
    (body : S → A → M S) :
  (∀ s a, touches ks (body s a)) → ∀ s, touches ks (for_each l s body).
Proof.
  intros Hb. induction l as [|a l IH]; intros s; cbn [for_each].
  - apply touches_ret.
  - apply touches_bind; [apply Hb | apply IH].
Qed.

Section Frames.
Context `{Libs}.

Lemma touches_load_yaml (ks : list string) (p : path) : touches ks (_load_yaml p).
Proof.
  unfold _load_yaml. apply touches_bind; [apply touches_read_text|]. intros text.
  apply touches_bind; [|intros; apply touches_ret].
  unfold yaml_safe_load. destruct (safe_load text);
    [apply touches_ret | apply touches_raise].
Qed.

Lemma touches_update_settings :
  touches [".speculate"] (_update_speculate_settings []).
Proof.
  unfold _update_speculate_settings. cbn [app].
  apply touches_bind; [apply touches_mkdir_parents|]. intros _.
  apply touches_bind; [apply touches_path_exists|]. intros ex.
  apply touches_bind.
  { apply touches_if; [apply touches_load_yaml | apply touches_ret]. }
  intros settings.
  apply touches_bind; [by apply touches_reads|]. intros t.
  apply touches_bind; [by apply touches_reads|]. intros v.
  apply touches_bind; [apply touches_path_exists|]. intros ex'.
  apply touches_bind.
  { apply touches_if; [|apply touches_ret].
    apply touches_bind; [apply touches_load_yaml|]. intros; apply touches_ret. }
  intros settings'.
  apply touches_bind; [apply touches_atomic_write|]. intros _.
  apply touches_print.
Qed.

Lemma touches_ensure_header (c : string) (p : path) :
  touches [c] (_ensure_speculate_header (c :: p)).
Proof.
  unfold _ensure_speculate_header.
  apply touches_bind; [apply touches_path_exists|]. intros ex.
  apply touches_bind.
  { apply touches_if; [|apply touches_ret].
    apply touches_bind; [apply touches_read_text|]. intros content.
    apply touches_if; [|apply touches_ret].
    apply touches_bind; [apply touches_print|]. intros; apply touches_ret. }
  intros [[new_content action]|]; [|apply touches_ret].
  apply touches_bind; [apply touches_atomic_write|]. intros _.
  apply touches_print.
Qed.

Lemma touches_link_rule (I E : option (list string)) (counts : nat * nat)
    (d : string) :
  touches [".cursor"] (link_rule cursor_dir I E counts d).
Proof.
  unfold link_rule. destruct counts as [linked skipped].
  destruct (negb _); [apply touches_ret|].
  apply touches_bind; [apply touches_path_exists|]. intros e.
  apply touches_bind; [apply touches_is_symlink|]. intros l.
  apply touches_bind.
  { apply touches_if; [apply touches_unlink | apply touches_ret]. }
  intros _. apply touches_bind; [apply touches_symlink_to|]. intros _.
  apply touches_ret.
Qed.

Lemma touches_setup_cursor_rules (I E : option (list string)) :
  touches [".cursor"] (_setup_cursor_rules [] I E).
Proof.
  unfold _setup_cursor_rules. cbn [app].
  apply touches_bind; [apply touches_mkdir_parents|]. intros _.
  apply touches_bind; [apply touches_path_exists|]. intros ex.
  destruct (negb ex); [apply touches_print|].
  apply touches_bind; [by apply touches_reads|]. intros rule_files.
  apply touches_bind.
  { apply touches_for_each. intros. apply touches_link_rule. }
  intros [linked skipped]. apply touches_print.
Qed.

Lemma touches_install (I E : option (list string)) :
  touches install_entries (install I E).
Proof.
  unfold install, install_entries. cbn [app].
  apply touches_bind; [apply touches_path_exists|]. intros ex.
  destruct (negb ex).
  { apply touches_bind; [apply touches_print|]. intros; apply touches_raise. }
  apply touches_bind; [by apply touches_reads|]. intros shown.
  apply touches_bind; [apply touches_print|]. intros _.
  apply touches_bind.
  { eapply touches_mono; [|apply touches_update_settings].
    intros k ->%list_elem_of_singleton. apply list_elem_of_here. }
  intros _. apply touches_bind.
  { eapply touches_mono; [|apply (touches_ensure_header "CLAUDE.md" [])].
    intros k ->%list_elem_of_singleton. do 1 apply list_elem_of_further.
    apply list_elem_of_here. }
  intros _. apply touches_bind.
  { eapply touches_mono; [|apply (touches_ensure_header "AGENTS.md" [])].
    intros k ->%list_elem_of_singleton. do 2 apply list_elem_of_further.
    apply list_elem_of_here. }
  intros _. apply touches_bind.
  { eapply touches_mono; [|apply touches_setup_cursor_rules].
    intros k ->%list_elem_of_singleton. do 3 apply list_elem_of_further.
    apply list_elem_of_here. }
  intros _. apply touches_bind; [apply touches_print|]. intros _.
  apply touches_bind; [apply touches_print|]. intros _. apply touches_print.
Qed.

(** X12.  Whatever its outcome, [install] leaves every entry of the
    working directory other than [.speculate], [CLAUDE.md], [AGENTS.md]
    and [.cursor] as it was; [docs], in particular, is only read.  This
    is for directories that are not reached through a link: none of
    [.speculate], [.cursor] and [.cursor/rules] is a symbolic link. *)
Theorem install_touches_only (I E : option (list string)) (w : world)
    (k : string) :
  install_dirs_real w →
  k ∉ install_entries → fs (install I E w).2 !! k = fs w !! k.
Proof. intros _. apply touches_install. Qed.

End Frames.

(** ** Header injector and orchestrator: further cases *)

Lemma top_entry_resolve (w : world) (c : string) (n : node) :
  fs w !! c = Some n → (∀ t, n ≠ Symlink t) →
  resolve MAXSYMLINKS (root w) [c] = Some ([c], n).
Proof.
  intros Hc Hn. apply resolve_not_link; [|done]. unfold root.
  by rewrite node_at_1.
Qed.

Lemma top_entry_missing (w : world) (c : string) :
  fs w !! c = None → exists_at w [c] = false.
Proof.
  intros Hc. apply exists_at_None. unfold root. by rewrite node_at_1.
Qed.

Lemma header_raises_on_directory (p : path) (w : world) (x : gmap string node) :
  node_at (root w) p = Some (Dir x) →
  _ensure_speculate_header p w = (Raise (OSError EISDIR), w).
Proof.
  intros Hx. unfold _ensure_speculate_header.
  rewrite run_bind, path_exists_run. unfold exists_at.
  rewrite (resolve_not_link _ _ (Dir x)) by done.
  rewrite bool_decide_true by eauto. rewrite !run_bind.
  unfold read_text. by rewrite (resolve_not_link _ _ (Dir x)).
Qed.

(** X13.  A directory in the place of the file stops the header
    injector: reading it raises an OS error, nothing is written and
    nothing is printed. *)
Theorem header_on_directory (p : path) (w : world) (x : gmap string node) :
  node_at (root w) p = Some (Dir x) →
  _ensure_speculate_header p w = (Raise (OSError EISDIR), w).
Proof. apply header_raises_on_directory. Qed.

Lemma header_step (c : string) (w w' : world) :
  (∀ t, fs w !! c ≠ Some (Symlink t)) →
  _ensure_speculate_header [c] w = (Return (), w') →
  ∃ content, fs w' !! c = Some (File content) ∧
             str_in SPECULATE_MARKER content = true.
Proof.
  intros Hl Hrun.
  assert (∀ s, node_set (root w) [c] (Some (File s)) = Some (root w') →
               fs w' !! c = Some (File s)) as Hset.
  { intros s Hs. apply node_at_set in Hs; [|done]. unfold root in Hs.
    by rewrite node_at_1 in Hs. }
  destruct (fs w !! c) as [[x|t|x]|] eqn:Hc.
  - assert (file_content w [c] = Some x) as Hf.
    { unfold file_content. by rewrite (top_entry_resolve w c (File x)). }
    destruct (ensure_header_run [c] w) as (w'' & Hrun' & Hpost).
    { intros _. rewrite Hf. eauto. }
    { intros He. by rewrite (file_content_exists _ _ _ Hf) in He. }
    rewrite Hrun in Hrun'. injection Hrun' as <-.
    rewrite Hf in Hpost. cbn [ensureHeader] in Hpost.
    destruct (str_in SPECULATE_MARKER x) eqn:Hm.
    + destruct Hpost as (_ & _ & Hfs). exists x. by rewrite Hfs.
    + destruct Hpost as (_ & _ & Hs). eexists. split; [by apply Hset|].
      apply marker_after_update.
  - by destruct (Hl t).
  - rewrite (header_raises_on_directory [c] w x) in Hrun; [done|].
    unfold root. by rewrite node_at_1.
  - assert (file_content w [c] = None) as Hf.
    { unfold file_content.
      destruct (resolve _ _ _) as [[q n]|] eqn:Hr; [|done].
      assert (is_Some (node_at (root w) [c])) as [y Hy].
      { eapply resolve_is_Some_node_at. by rewrite Hr. }
      unfold root in Hy. by rewrite node_at_1, Hc in Hy. }
    destruct (ensure_header_run [c] w) as (w'' & Hrun' & Hpost).
    { intros He. by rewrite top_entry_missing in He. }
    { intros _. by exists (fs w). }
    rewrite Hrun in Hrun'. injection Hrun' as <-.
    rewrite Hf in Hpost. cbn [ensureHeader] in Hpost.
    destruct Hpost as (_ & _ & Hs). eexists. split; [by apply Hset|].
    apply marker_after_create.
Qed.

Section InstallResult.
Context `{Libs}.

Lemma touches_Return {A} (ks : list string) (m : M A) (w w' : world) (a : A)
    (k : string) :
  touches ks m → m w = (Return a, w') → k ∉ ks → fs w' !! k = fs w !! k.
Proof. intros Hm Hrun Hk. specialize (Hm w k Hk). by rewrite Hrun in Hm. Qed.

(** X14.  After an [install] that returns normally, [CLAUDE.md] and
    [AGENTS.md] are regular files that contain the marker, when neither
    of them was a symbolic link before. *)
Theorem install_headers_in_place (I E : option (list string)) (w w' : world)
    (f : string) :
  (∀ t, fs w !! "CLAUDE.md" ≠ Some (Symlink t)) →
  (∀ t, fs w !! "AGENTS.md" ≠ Some (Symlink t)) →
  install I E w = (Return (), w') →
  f ∈ ["CLAUDE.md"; "AGENTS.md"] →
  ∃ content, fs w' !! f = Some (File content) ∧
             str_in SPECULATE_MARKER content = true.
Proof.
  intros Hc Ha Hrun Hf.
  destruct (exists_at w ["docs"]) eqn:Hdocs; cycle 1.
  { by rewrite (install_without_docs _ _ _ Hdocs) in Hrun. }
  rewrite (install_run _ _ _ Hdocs) in Hrun.
  destruct (_update_speculate_settings [] _) as [[[]|] w1] eqn:H1; [|done].
  destruct (_ensure_speculate_header ["CLAUDE.md"] w1) as [[[]|] w2] eqn:H2; [|done].
  destruct (_ensure_speculate_header ["AGENTS.md"] w2) as [[[]|] w3] eqn:H3; [|done].
  destruct (_setup_cursor_rules [] I E w3) as [[[]|] w4] eqn:H4; [|done].
  injection Hrun as <-. cbn [install_footer fs add_out].
  pose proof (λ k, touches_Return _ _ _ _ _ k touches_update_settings H1) as F1.
  pose proof (λ k, touches_Return _ _ _ _ _ k
                     (touches_ensure_header "CLAUDE.md" []) H2) as F2.
  pose proof (λ k, touches_Return _ _ _ _ _ k
                     (touches_ensure_header "AGENTS.md" []) H3) as F3.
  pose proof (λ k, touches_Return _ _ _ _ _ k
                     (touches_setup_cursor_rules I E) H4) as F4.
  cbn [fs add_out] in F1.
  apply header_step in H2; cycle 1.
  { intros t. rewrite F1; [apply Hc|]. by intros [=]%list_elem_of_singleton. }
  apply header_step in H3; cycle 1.
  { intros t. rewrite F2, F1; [apply Ha| |]; by intros [=]%list_elem_of_singleton. }
  apply elem_of_cons in Hf as [->|Hf].
  - rewrite F4, F3; [done| |]; by intros [=]%list_elem_of_singleton.
  - apply list_elem_of_singleton in Hf as ->.
    rewrite F4; [done|]. by intros [=]%list_elem_of_singleton.
Qed.

End InstallResult.

(** ** Install metadata store: further cases *)

Lemma root_fs (w w' : world) : fs w' = fs w → root w' = root w.
Proof. unfold root. by intros ->. Qed.

Section SettingsCases.
Context `{Libs}.

(** What is read at a top-level name that is not a link depends on
    that entry alone. *)
Lemma load_or_absent_top (w w' : world) (c : string) :
  fs w' !! c = fs w !! c → (∀ t, fs w !! c ≠ Some (Symlink t)) →
  load_or_absent w' [c] = load_or_absent w [c].
Proof.
  intros Hc Hl. unfold load_or_absent.
  destruct (fs w !! c) as [n|] eqn:Hn.
  - assert (∀ t, n ≠ Symlink t) as Hn' by (by intros t ->; destruct (Hl t)).
    unfold exists_at, file_content.
    by rewrite (top_entry_resolve w c n), (top_entry_resolve w' c n).
  - by rewrite !top_entry_missing.
Qed.

Lemma load_or_absent_fs (w w' : world) (p : path) :
  fs w' = fs w → load_or_absent w' p = load_or_absent w p.
Proof.
  intros Hfs. unfold load_or_absent, exists_at, file_content.
  by rewrite (root_fs _ _ Hfs).
Qed.


(** X15.  The first install of a project: with no [.speculate] entry,
    the step creates the directory and, in it, [settings.yml] holding
    the dump of the record made of the standard keys alone;
    [last_docs_version] is among them only when there is an answers
    file. *)
Theorem first_install_creates_settings (w : world)
    (answers : option (gmap string pyobj)) :
  fs w !! ".speculate" = None →
  (∀ t, fs w !! ".copier-answers.yml" ≠ Some (Symlink t)) →
  load_or_absent w answers_file = Some answers →
  ∃ w',
    _update_speculate_settings [] w = (Return (), w') ∧
    fs w' = <[".speculate" :=
                Dir {["settings.yml" := File (dump (new_record w ∅ answers))]}]>
              (fs w) ∧
    dom (new_record w ∅ answers) =
      {["last_update"; "last_cli_version"]} ∪
      match answers with
      | Some _ => {["last_docs_version"]}
      | None => ∅
      end.
Proof.
  intros Hs Hl Hans.
  set (w0 := set_fs (<[".speculate" := Dir ∅]> (fs w)) w).
  assert (mkdir_parents [".speculate"] w = (Return (), w0)) as Hmk.
  { unfold mkdir_parents. rewrite mkdirs_cons. cbn [app]. unfold root.
    by rewrite node_at_1, Hs. }
  assert (fs w0 !! ".speculate" = Some (Dir ∅)) as Hs0.
  { cbn [w0 fs set_fs]. by rewrite lookup_insert_eq. }
  assert (_update_speculate_settings [] w = _update_speculate_settings [] w0)
    as ->.
  { unfold _update_speculate_settings. cbn [app].
    by rewrite !run_bind, Hmk, (mkdir_existing _ _ _ Hs0). }
  destruct (update_settings_run w0 ∅ None answers Hs0) as (w' & Hrun & Hset & _).
  { unfold load_or_absent. rewrite exists_at_None; [done|].
    unfold settings_file, root. by rewrite node_at_2, Hs0. }
  { unfold answers_file. rewrite <-Hans. apply load_or_absent_top; [|done].
    cbn [w0 fs set_fs]. by rewrite lookup_insert_ne. }
  exists w'. split; [done|]. split.
  - unfold settings_file, root in Hset.
    rewrite node_set_deep, Hs0 in Hset by done.
    cbn [mbind option_bind node_set default] in Hset. injection Hset as <-.
    cbn [w0 fs set_fs]. rewrite insert_insert_eq.
    by change (partial_alter _ "settings.yml" ∅) with
      (<["settings.yml" := File (dump (new_record w ∅ answers))]>
         (∅ : gmap string node)).
  - unfold new_record. destruct answers as [a|].
    + rewrite !dom_insert_L, dom_empty_L. set_solver.
    + rewrite !dom_insert_L, dom_empty_L. set_solver.
Qed.

(** X16.  An answers file that the YAML parser rejects stops the
    metadata step: it raises the parser's error, and the settings file
    and everything else is left as it was. *)
Theorem corrupt_answers_blocks_record (w : world) (sd : gmap string node)
    (prior : option (gmap string pyobj)) (text : string) :
  fs w !! ".speculate" = Some (Dir sd) →
  load_or_absent w settings_file = Some prior →
  file_content w answers_file = Some text →
  safe_load text = None →
  _update_speculate_settings [] w = (Raise YAMLError, w).
Proof.
  intros Hsd Hprior Ht Hbad. unfold _update_speculate_settings. cbn [app].
  rewrite run_bind, (mkdir_existing _ _ _ Hsd).
  rewrite run_bind, path_exists_run. cbv beta iota.
  rewrite run_bind.
  rewrite (load_if_exists_run settings_file w prior ∅
             (load_or_absent_file _ _ _ Hprior) Hprior).
  do 2 (rewrite run_bind; cbv beta iota delta [now_isoformat version_or_unknown]).
  rewrite run_bind, path_exists_run. cbv beta iota. rewrite run_bind.
  change [".copier-answers.yml"] with answers_file.
  rewrite (file_content_exists _ _ _ Ht).
  by rewrite run_bind, (load_yaml_run _ _ _ Ht), Hbad.
Qed.

(** X17.  The record survives a second install.  When what the step
    dumps loads back to the same mapping, a later run of the step, at
    any time, starts from the record of the first run: it keeps every
    key that is not a standard key with its value and sets
    [last_update] to its own time. *)
Theorem record_survives_reinstall (w : world) (sd : gmap string node)
    (prior answers : option (gmap string pyobj)) :
  let m1 := new_record w (default ∅ prior) answers in
  fs w !! ".speculate" = Some (Dir sd) →
  (∀ t, fs w !! ".copier-answers.yml" ≠ Some (Symlink t)) →
  load_or_absent w settings_file = Some prior →
  load_or_absent w answers_file = Some answers →
  safe_load (dump m1) = Some (PyDict m1) →
  ∃ w1,
    _update_speculate_settings [] w = (Return (), w1) ∧
    ∀ later, fs later = fs w1 →
      ∃ w2 m2,
        _update_speculate_settings [] later = (Return (), w2) ∧
        file_content w2 settings_file = Some (dump m2) ∧
        m2 !! "last_update" = Some (PyStr (clock later)) ∧
        ∀ k, k ∉ standard_keys → m2 !! k = default ∅ prior !! k.
Proof.
  intros m1 Hsd Hl Hprior Hans Hrt.
  destruct (update_settings_run w sd prior answers Hsd Hprior Hans)
    as (w1 & Hrun1 & Hset1 & _).
  exists w1. split; [done|]. intros later Hfs.
  pose proof (file_content_written settings_file _ _ _ ltac:(done) Hset1) as Hfile1.
  destruct (settings_dir_exists _ _ Hfile1) as [sd1 Hsd1].
  assert (load_or_absent later settings_file = Some (Some m1)) as Hprior2.
  { rewrite (load_or_absent_fs w1 later _ Hfs).
    by apply (load_or_absent_loaded _ _ _ (PyDict m1) Hfile1). }
  assert (load_or_absent later answers_file = Some answers) as Hans2.
  { rewrite (load_or_absent_fs w1 later _ Hfs), <-Hans. unfold answers_file.
    apply load_or_absent_top; [|done].
    apply (touches_Return _ _ _ _ _ _ touches_update_settings Hrun1).
    by intros [=]%list_elem_of_singleton. }
  rewrite <-Hfs in Hsd1.
  destruct (update_settings_run later sd1 (Some m1) answers Hsd1 Hprior2 Hans2)
    as (w2 & Hrun2 & Hset2 & _).
  exists w2, (new_record later m1 answers). split; [done|].
  split; [by eapply file_content_written|].
  destruct (new_record_standard later m1 answers) as (Hu & _).
  split; [done|]. intros k Hk.
  rewrite new_record_other by done. cbn [default]. unfold m1.
  by rewrite new_record_other.
Qed.

End SettingsCases.

(** ** [update] and [status] *)








Lemma touches_prints_only (ks : list string) (p : M ()) :
  prints_only p → touches ks p.
Proof.
  intros Hp. apply touches_reads. intros w.
  destruct (Hp w) as (w' & -> & Hfs). done.
Qed.

Section UpdateStatus.
Context `{Libs} `{Copier} `{Console}.


Lemma touches_update (ks : list string) :
  touches ks copier_run_update → touches (ks ++ install_entries) update.
Proof.
  intros Hc. unfold update. cbn [app].
  apply touches_bind; [apply touches_path_exists|]. intros ex.
  destruct (negb ex).
  { apply touches_bind; [apply touches_print|]. intros; apply touches_raise. }
  apply touches_bind; [by apply touches_reads|]. intros shown.
  apply touches_bind; [apply touches_print|]. intros _.
  apply touches_bind.
  { eapply touches_mono; [|done]. intros k Hk. apply elem_of_app. by left. }
  intros _. apply touches_bind; [apply touches_print|]. intros _.
  apply touches_bind; [apply touches_print|]. intros _.
  apply touches_bind; [apply touches_print|]. intros _.
  eapply touches_mono; [|apply touches_install].
  intros k Hk. apply elem_of_app. by right.
Qed.

(** X19.  Whatever its outcome, [update] leaves alone every entry of
    the working directory that copier leaves alone and that is not one
    of the four entries of [install].  This is for directories that are
    not reached through a link: when copier returns, none of
    [.speculate], [.cursor] and [.cursor/rules] is a symbolic link. *)
Theorem update_touches_only (ks : list string) (w : world) (k : string) :
  touches ks copier_run_update →
  (∀ w1,
     copier_run_update
       (add_out (Header "Updating docs from upstream template..." (cwd w)) w) =
       (Return (), w1) →
     install_dirs_real w1) →
  k ∉ ks → k ∉ install_entries →
  fs (update w).2 !! k = fs w !! k.
Proof.
  intros Hc _ Hk Hi. apply (touches_update ks Hc).
  rewrite elem_of_app. tauto.
Qed.

Lemma touches_check_config (item : string * path) :
  touches [] (check_config () item).
Proof.
  destruct item as [name path]. unfold check_config.
  apply touches_bind; [apply touches_path_exists|]. intros ex.
  apply touches_if; apply touches_print.
Qed.

Lemma touches_status : console_prints → touches [] status.
Proof.
  intros (Hmiss & Hdet & Herr). unfold status. cbn [app].
  apply touches_bind; [by apply touches_reads|]. intros shown.
  apply touches_bind; [apply touches_print|]. intros _.
  apply touches_bind; [apply touches_path_exists|]. intros ex1.
  apply touches_bind.
  { apply touches_if; [|by apply touches_prints_only].
    apply touches_bind; [apply touches_load_yaml|]. intros answers.
    apply touches_bind; [apply touches_print|]. intros _.
    by apply touches_prints_only. }
  intros _. apply touches_bind; [apply touches_path_exists|]. intros ex2.
  apply touches_bind.
  { apply touches_if; [|apply touches_print].
    apply touches_bind; [apply touches_load_yaml|]. intros settings.
    apply touches_print. }
  intros _. apply touches_bind; [apply touches_path_exists|]. intros ex3.
  apply touches_bind.
  { apply touches_if; [|by apply touches_prints_only].
    apply touches_bind; [by apply touches_reads|]. intros [file_count total_size].
    apply touches_print. }
  intros _. apply touches_bind; [apply touches_path_exists|]. intros ex4.
  apply touches_bind.
  { apply touches_if.
    - apply touches_bind; [apply touches_print|]. intros; apply touches_ret.
    - apply touches_bind; [by apply touches_prints_only|].
      intros; apply touches_ret. }
  intros has_errors. apply touches_bind.
  { apply touches_for_each. intros [] item. apply touches_check_config. }
  intros _. apply touches_bind; [apply touches_print|]. intros _.
  apply touches_if; [apply touches_raise | apply touches_ret].
Qed.

(** X20.  [status] only reads: whatever its outcome, an error of a
    load included, the files are as they were.  (The three further
    printing functions are taken to print.) *)
Theorem status_reads_only (w : world) :
  console_prints → fs (status w).2 = fs w.
Proof.
  intros Hc. apply map_eq. intros k. apply (touches_status Hc).
  apply not_elem_of_nil.
Qed.




End UpdateStatus.

(** ** Directory statistics *)

Lemma node_size_child (d : gmap string node) (k : string) (x : node) :
  d !! k = Some x → node_size x < node_size (Dir d).
Proof.
  intros Hk. change (node_size (Dir d)) with
    (S (map_fold (λ _ x acc, node_size x + acc) 0 d)).
  rewrite map_fold_foldr. apply elem_of_map_to_list in Hk.
  induction (map_to_list d) as [|[k' x'] l IH]; [by apply elem_of_nil in Hk|].
  cbn [foldr uncurry]. apply elem_of_cons in Hk as [[= <- <-]|Hk].
  - lia.
  - specialize (IH Hk). lia.
Qed.

(** Induction on the tree. *)
Lemma node_induction (P : node → Prop) :
  (∀ c, P (File c)) → (∀ t, P (Symlink t)) →
  (∀ d, (∀ k x, d !! k = Some x → P x) → P (Dir d)) →
  ∀ n, P n.
Proof.
  intros HF HS HD n. remember (node_size n) as s eqn:Hs. revert n Hs.
  induction s as [s IH] using lt_wf_ind. intros n ->.
  destruct n as [c|t|d]; [apply HF | apply HS |]. apply HD. intros k x Hk.
  apply (IH (node_size x)); [by eapply node_size_child | done].
Qed.

Lemma no_links_child (d : gmap string node) (k : string) (x : node) :
  no_links (Dir d) = true → d !! k = Some x → no_links x = true.
Proof.
  change (no_links (Dir d)) with (map_fold (λ _ x acc, no_links x && acc) true d).
  rewrite map_fold_foldr. intros Hall Hk%elem_of_map_to_list.
  induction (map_to_list d) as [|[k' x'] l IH]; [by apply elem_of_nil in Hk|].
  cbn [foldr uncurry] in Hall. apply andb_true_iff in Hall as [Hx Hl].
  apply elem_of_cons in Hk as [[= <- <-]|Hk]; [done | by apply IH].
Qed.

Lemma no_links_not_link (n : node) (t : path) : no_links n = true → n ≠ Symlink t.
Proof. by intros Hn ->. Qed.

Lemma count_file_acc (r : node) (a b : nat) (l : list path) :
  foldl (count_file r) (a, b) l =
  (a + (foldl (count_file r) (0, 0) l).1, b + (foldl (count_file r) (0, 0) l).2).
Proof.
  revert a b. induction l as [|f l IH]; intros a b; cbn [foldl].
  - cbn. f_equal; lia.
  - unfold count_file at 2 4 6. destruct (file_size r f) as [s|].
    + rewrite (IH (a + 1) (b + s)), (IH (0 + 1) (0 + s)). cbn [fst snd].
      f_equal; lia.
    + apply IH.
Qed.

(** The entries found below a node at [f], the node itself first, add
    the regular files of the node to the counts. *)
Lemma walk_counts (w : world) (n : node) :
  ∀ f, node_at (root w) f = Some n → no_links n = true →
       foldl (count_file (root w)) (0, 0) (f :: walk n f) =
       (count_files n, total_bytes n).
Proof.
  induction n as [c|t|d IH] using node_induction; intros f Hf Hn; [|done|].
  - cbn [walk foldl count_file]. unfold file_size.
    by rewrite (resolve_not_link _ _ (File c)).
  - change (foldl (count_file (root w)) (0, 0) (f :: walk (Dir d) f)) with
      (foldl (count_file (root w)) (count_file (root w) (0, 0) f)
         (walk (Dir d) f)).
    unfold count_file at 2. unfold file_size.
    rewrite (resolve_not_link _ _ (Dir d)) by done.
    change (walk (Dir d) f) with
      (map_fold (λ k x acc, (f ++ [k]) :: walk x (f ++ [k]) ++ acc) [] d).
    change (count_files (Dir d)) with
      (map_fold (λ _ x acc, count_files x + acc) 0 d).
    change (total_bytes (Dir d)) with
      (map_fold (λ _ x acc, total_bytes x + acc) 0 d).
    rewrite !map_fold_foldr.
    assert (∀ k x, (k, x) ∈ map_to_list d → d !! k = Some x) as Hl.
    { intros k x. apply elem_of_map_to_list. }
    induction (map_to_list d) as [|[k x] l IHl]; [done|].
    cbn [foldr uncurry].
    change ((f ++ [k]) :: walk x (f ++ [k]) ++ ?rest) with
      (((f ++ [k]) :: walk x (f ++ [k])) ++ rest).
    rewrite foldl_app.
    assert (d !! k = Some x) as Hk by apply Hl, list_elem_of_here.
    pose proof (IH k x Hk (f ++ [k])) as Hx. unfold path in *.
    rewrite Hx; cycle 1.
    { rewrite node_at_app, Hf. cbn [mbind option_bind]. by rewrite node_at_1. }
    { by eapply no_links_child. }
    rewrite count_file_acc. unfold path in *. rewrite IHl; [done|].
    intros k' x' Hin. by apply Hl, list_elem_of_further.
Qed.

(** X22.  In a directory tree without symbolic links, [_get_dir_stats]
    returns the number of regular files at any depth below the
    directory and the sum of their sizes; directories are not counted,
    and nothing is changed. *)
Theorem dir_stats_counts_files (p : path) (w : world) (d : gmap string node) :
  node_at (root w) p = Some (Dir d) →
  no_links (Dir d) = true →
  _get_dir_stats p w = (Return (count_files (Dir d), total_bytes (Dir d)), w).
Proof.
  intros Hp Hn. unfold _get_dir_stats, rglob_all.
  rewrite (resolve_not_link _ _ (Dir d)) by done.
  rewrite <-(walk_counts w (Dir d) p Hp Hn). cbn [foldl].
  unfold count_file at 3. unfold file_size.
  by rewrite (resolve_not_link _ _ (Dir d)).
Qed.

#[local] Existing Instance sample_libs.

(** ** The theorems at work on the example projects *)

(** Two calls on a [CLAUDE.md] made of a title line. *)
Lemma header_injection_idempotent_witness :
  file_content notes_project ["CLAUDE.md"] = Some ("# Notes" +:+ nl) ∧
  str_in SPECULATE_MARKER ("# Notes" +:+ nl) = false ∧
  ∃ w1 w2 final,
    _ensure_speculate_header ["CLAUDE.md"] notes_project = (Return (), w1) ∧
    _ensure_speculate_header ["CLAUDE.md"] w1 = (Return (), w2) ∧
    fs w2 = fs w1 ∧
    out w2 = out w1 ++ [report "CLAUDE.md" unchanged] ∧
    file_content w1 ["CLAUDE.md"] = Some final ∧
    file_content w2 ["CLAUDE.md"] = Some final ∧
    occurrences SPECULATE_MARKER final = 1.
Proof.
  split; [reflexivity|]. split; [reflexivity|].
  apply (header_injection_idempotent ["CLAUDE.md"] notes_project ("# Notes" +:+ nl));
    reflexivity.
Defined.


(** A [CLAUDE.md] that only mentions the marker in its second line stays
    without header. *)
Lemma marker_anywhere_blocks_header_witness :
  let C := "# Notes" +:+ nl +:+ "See the Speculate project structure page." +:+ nl in
  file_content quoting_project ["CLAUDE.md"] = Some C ∧
  str_in SPECULATE_MARKER C = true ∧
  String.prefix SPECULATE_HEADER C = false ∧
  ∃ w',
    _ensure_speculate_header ["CLAUDE.md"] quoting_project = (Return (), w') ∧
    fs w' = fs quoting_project ∧
    file_content w' ["CLAUDE.md"] = Some C ∧
    out w' = out quoting_project ++ [report "CLAUDE.md" unchanged] ∧
    (String.prefix SPECULATE_HEADER C = false →
     ∀ text, file_content w' ["CLAUDE.md"] = Some text →
             String.prefix SPECULATE_HEADER text = false).
Proof.
  intros C. split; [reflexivity|]. split; [reflexivity|]. split; [reflexivity|].
  apply (marker_anywhere_blocks_header ["CLAUDE.md"] quoting_project C); reflexivity.
Defined.


(** A prior record [{"x": "y"}] keeps ["x": "y"] and gains the standard
    keys; there is no answers file, so no [last_docs_version]. *)
Lemma record_install_preserves_unknown_keys_witness :
  let w := project_with_settings ("x: y" +:+ nl) in
  file_content w settings_file = Some ("x: y" +:+ nl) ∧
  safe_load ("x: y" +:+ nl) = Some (PyDict {[ "x" := PyStr "y" ]}) ∧
  load_or_absent w answers_file = Some None ∧
  ((({[ "x" := PyStr "y" ]} : gmap string pyobj) !! "x") = Some (PyStr "y")) ∧
  ("x" ∉ standard_keys) ∧
  ∃ w' m',
    _update_speculate_settings [] w = (Return (), w') ∧
    file_content w' settings_file = Some (dump m') ∧
    m' !! "x" = Some (PyStr "y") ∧
    m' !! "last_update" = Some (PyStr (clock w)) ∧
    m' !! "last_cli_version" = Some (PyStr (default "unknown" (dist_version w))) ∧
    (∀ a : gmap string pyobj, None = Some a →
          m' !! "last_docs_version" = Some (default (PyStr "unknown") (a !! "_commit"))).
Proof.
  intros w.
  assert ("x" ∉ standard_keys) as Hx.
  { unfold standard_keys. rewrite !not_elem_of_cons. repeat split; try done.
    apply not_elem_of_nil. }
  repeat (split; [reflexivity || exact Hx|]).
  apply (record_install_preserves_unknown_keys w ("x: y" +:+ nl)
           {[ "x" := PyStr "y" ]} None "x" (PyStr "y"));
    reflexivity || exact Hx.
Defined.

Example record_install_example :
  let w := project_with_settings ("x: y" +:+ nl) in
  let w' := (_update_speculate_settings [] w).2 in
  (file_content w' settings_file ≫= safe_load) =
  Some (PyDict {[ "x" := PyStr "y";
                  "last_update" := PyStr "2025-01-01T00:00:00+00:00";
                  "last_cli_version" := PyStr "0.1.0" ]}).
Proof. vm_compute. reflexivity. Qed.

(** C4: a settings file that is not YAML stops the metadata step, and
    the install with it. *)
Lemma corrupt_metadata_blocks_install :
  let w := project_with_settings "key: [broken" in
  safe_load "key: [broken" = None ∧
  _update_speculate_settings [] w = (Raise YAMLError, w) ∧
  install None None w = (Raise YAMLError, add_out (install_header w) w).
Proof. vm_compute. done. Qed.

(** A settings file that holds a YAML scalar, not a mapping, counts as
    no prior record. *)
Lemma corrupt_metadata_handling_witness :
  let w := project_with_settings "garbage" in
  file_content w settings_file = Some "garbage" ∧
  load_or_absent w answers_file = Some None ∧
  safe_load "garbage" = Some (PyStr "garbage") ∧
  ∃ w' m',
    _update_speculate_settings [] w = (Return (), w') ∧
    file_content w' settings_file = Some (dump m') ∧
    m' = new_record w ∅ None ∧
    m' !! "last_update" = Some (PyStr (clock w)) ∧
    m' !! "last_cli_version" = Some (PyStr (default "unknown" (dist_version w))) ∧
    (∀ k, k ∉ standard_keys → m' !! k = None).
Proof.
  intros w. repeat (split; [reflexivity|]).
  refine (corrupt_metadata_handling w "garbage" None _ _ _);
    [reflexivity | reflexivity | done].
Defined.





(** A first projection into a project without link directory links
    every rule file. *)
Lemma projection_link_set_witness :
  let w := two_rules_project in
  let R : gmap string node := {[ "a.md" := rule_file "A"; "b.md" := rule_file "B" ]} in
  let w' := (_setup_cursor_rules [] None None w).2 in
  node_at (root w) rules_dir = Some (Dir R) ∧
  _setup_cursor_rules [] None None w = (Return (), w') ∧
  dir_names w cursor_dir = ∅ ∧
  dir_names w' cursor_dir = link_names (sorted_names R ".md") None None.
Proof.
  intros w R w'.
  assert (node_at (root w) rules_dir = Some (Dir R)) as HR by (by vm_compute).
  assert (_setup_cursor_rules [] None None w = (Return (), w')) as Hrun
    by (by vm_compute).
  assert (dir_names w cursor_dir = ∅) as Hempty by (by vm_compute).
  repeat (split; [assumption|]).
  exact (proj2 (projection_link_set None None w w' R HR Hrun) Hempty).
Defined.

(** Projecting [a*] and then [b*] into a project without link directory
    leaves both links. *)
Lemma projection_accumulates_witness :
  let w := two_rules_project in
  let R : gmap string node := {[ "a.md" := rule_file "A"; "b.md" := rule_file "B" ]} in
  let w1 := (_setup_cursor_rules [] (Some ["a*"]) None w).2 in
  let w2 := (_setup_cursor_rules [] (Some ["b*"]) None w1).2 in
  let D := sorted_names R ".md" in
  node_at (root w) rules_dir = Some (Dir R) ∧
  _setup_cursor_rules [] (Some ["a*"]) None w = (Return (), w1) ∧
  _setup_cursor_rules [] (Some ["b*"]) None w1 = (Return (), w2) ∧
  node_at (root w2) rules_dir = Some (Dir R) ∧
  dir_names w2 cursor_dir =
    link_names D (Some ["b*"]) None ∪ link_names D (Some ["a*"]) None
    ∪ dir_names w cursor_dir.
Proof.
  intros w R w1 w2 D.
  assert (node_at (root w) rules_dir = Some (Dir R)) as HR by (by vm_compute).
  assert (_setup_cursor_rules [] (Some ["a*"]) None w = (Return (), w1)) as H1
    by (by vm_compute).
  assert (_setup_cursor_rules [] (Some ["b*"]) None w1 = (Return (), w2)) as H2
    by (by vm_compute).
  do 3 (split; [assumption|]).
  exact (projection_accumulates (Some ["a*"]) None (Some ["b*"]) None w w1 w2 R HR H1 H2).
Defined.

(** C2: the filters [a*] and [b*] have no rule file in common; after
    projecting with the first and then with the second, the link of
    [a.md] is still there. *)
Lemma projection_keeps_links_of_earlier_filter :
  let w := two_rules_project in
  let D := ["a.md"; "b.md"] in
  let F1 := Some ["a*"] in
  let F2 := Some ["b*"] in
  let w1 := (_setup_cursor_rules [] F1 None w).2 in
  let w2 := (_setup_cursor_rules [] F2 None w1).2 in
  glob_names (root w) rules_dir ".md" = D ∧
  glob_names (root w1) rules_dir ".md" = D ∧
  (∀ d, d ∈ D → ¬ (_matches_patterns d F1 None = true ∧
                    _matches_patterns d F2 None = true)) ∧
  _setup_cursor_rules [] F1 None w = (Return (), w1) ∧
  _setup_cursor_rules [] F2 None w1 = (Return (), w2) ∧
  link_names D F2 None = {[ "b.mdc" ]} ∧
  dir_names w2 cursor_dir = {[ "a.mdc"; "b.mdc" ]} ∧
  dir_names w2 cursor_dir ≠ link_names D F2 None.
Proof.
  intros w D F1 F2 w1 w2.
  assert (link_names D F2 None = {[ "b.mdc" ]}) as HF2 by (by vm_compute).
  assert (dir_names w2 cursor_dir = {[ "a.mdc"; "b.mdc" ]}) as Hw2 by (by vm_compute).
  split; [by vm_compute|]. split; [by vm_compute|]. split.
  { intros d Hd. apply list_elem_of_In in Hd.
    destruct Hd as [<-|[<-|[]]]; vm_compute; by intros [? ?]. }
  split; [by vm_compute|]. split; [by vm_compute|].
  split; [done|]. split; [done|].
  rewrite Hw2, HF2. intros Heq.
  assert ("a.mdc" ∈ ({[ "b.mdc" ]} : gset string)) as Hin
    by (rewrite <-Heq; apply elem_of_union_l, elem_of_singleton; reflexivity).
  by apply elem_of_singleton in Hin.
Qed.

(** C3: one run over a link directory that holds a link without source
    document leaves that link in place. *)
Lemma projection_leaves_stale_link :
  let w := stale_link_project in
  let D := ["a.md"] in
  let w' := (_setup_cursor_rules [] None None w).2 in
  glob_names (root w) rules_dir ".md" = D ∧
  _setup_cursor_rules [] None None w = (Return (), w') ∧
  link_names D None None = {[ "a.mdc" ]} ∧
  dir_names w' cursor_dir = {[ "a.mdc"; "old.mdc" ]} ∧
  dir_names w' cursor_dir ≠ link_names D None None.
Proof.
  intros w D w'.
  assert (link_names D None None = {[ "a.mdc" ]}) as HD by (by vm_compute).
  assert (dir_names w' cursor_dir = {[ "a.mdc"; "old.mdc" ]}) as Hw' by (by vm_compute).
  split; [by vm_compute|]. split; [by vm_compute|].
  split; [done|]. split; [done|].
  rewrite Hw', HD. intros Heq.
  assert ("old.mdc" ∈ ({[ "a.mdc" ]} : gset string)) as Hin
    by (rewrite <-Heq; apply elem_of_union_r, elem_of_singleton; reflexivity).
  by apply elem_of_singleton in Hin.
Qed.

#[local] Existing Instance idle_copier.
#[local] Existing Instance plain_console.

(** ** The further properties at work on the example projects *)

(** [general-rules.md] is included by [*.md] and excluded by
    [general-*.md]; [a.md], accepted when [b.md] and [c.md] are
    excluded, is accepted when only [b.md] is. *)
Lemma exclude_narrows_witness :
  glob_match "general-rules.md" "general-*.md" = true ∧
  _matches_patterns "general-rules.md" (Some ["*.md"]) (Some ["general-*.md"]) = false ∧
  _matches_patterns "a.md" None (Some ["b.md"; "c.md"]) = true ∧
  _matches_patterns "a.md" None (Some ["b.md"]) = true.
Proof.
  split; [reflexivity|]. split; [|split; [reflexivity|]].
  - apply (proj1 (exclude_narrows "general-rules.md" (Some ["*.md"])
                    (Some ["general-*.md"]) None) "general-*.md");
      [apply list_elem_of_here | reflexivity].
  - apply (proj2 (exclude_narrows "a.md" None (Some ["b.md"])
                    (Some ["b.md"; "c.md"]))); [|reflexivity].
    intros p ->%list_elem_of_singleton. apply list_elem_of_here.
Defined.

Lemma include_widens_witness :
  _matches_patterns "a.md" (Some ["a.md"]) None = true ∧
  _matches_patterns "a.md" (Some ["b.md"; "a.md"]) None = true.
Proof.
  split; [reflexivity|].
  apply (include_widens "a.md" ["a.md"] ["b.md"; "a.md"] None);
    [done | | reflexivity].
  intros p ->%list_elem_of_singleton. apply list_elem_of_further, list_elem_of_here.
Defined.

Lemma normalize_fixed_iff_witness :
  str_in "**" "general-*.md" = false ∧ normalize "general-*.md" = "general-*.md".
Proof.
  split; [reflexivity|].
  apply (proj2 (normalize_fixed_iff "general-*.md")). reflexivity.
Defined.

Lemma link_name_of_md_witness :
  stem ("general-rules" +:+ ".md") = "general-rules" ∧
  link_name ("general-rules" +:+ ".md") = "general-rules" +:+ ".mdc".
Proof. apply (link_name_of_md "general-rules"). done. Defined.

(** A projection over the project with the link [old.mdc]: [docs] and
    [old.mdc] are as they were. *)
Lemma projection_frame_witness :
  let w := stale_link_project in
  let R : gmap string node := {[ "a.md" := rule_file "A" ]} in
  let w' := (_setup_cursor_rules [] None None w).2 in
  link_dir_real w ∧
  node_at (root w) rules_dir = Some (Dir R) ∧
  _setup_cursor_rules [] None None w = (Return (), w') ∧
  (∀ k, k ≠ ".cursor" → fs w' !! k = fs w !! k) ∧
  (∀ n, n ∉ link_names (sorted_names R ".md") None None →
        link_entry w' n = link_entry w n).
Proof.
  intros w R w'.
  assert (link_dir_real w) as Hreal by (split; intros t; by vm_compute).
  assert (node_at (root w) rules_dir = Some (Dir R)) as HR by (by vm_compute).
  assert (_setup_cursor_rules [] None None w = (Return (), w')) as Hrun
    by (by vm_compute).
  do 3 (split; [assumption|]).
  exact (projection_frame None None w w' R Hreal HR Hrun).
Defined.

Lemma projection_links_witness :
  let w := stale_link_project in
  let R : gmap string node := {[ "a.md" := rule_file "A" ]} in
  let w' := (_setup_cursor_rules [] None None w).2 in
  node_at (root w) rules_dir = Some (Dir R) ∧
  _setup_cursor_rules [] None None w = (Return (), w') ∧
  ("a.mdc" ∈ link_names (sorted_names R ".md") None None) ∧
  ∃ d, is_Some (R !! d) ∧ endswith d ".md" = true ∧
       _matches_patterns d None None = true ∧ link_name d = "a.mdc" ∧
       link_entry w' "a.mdc" = Some (Symlink (link_target d)).
Proof.
  intros w R w'.
  assert (node_at (root w) rules_dir = Some (Dir R)) as HR by (by vm_compute).
  assert (_setup_cursor_rules [] None None w = (Return (), w')) as Hrun
    by (by vm_compute).
  assert ("a.mdc" ∈ link_names (sorted_names R ".md") None None) as Hn.
  { apply (bool_decide_unpack _). by vm_compute. }
  do 3 (split; [assumption|]).
  exact (projection_links None None w w' R "a.mdc" HR Hrun Hn).
Defined.

(** Reading [.cursor/rules/a.mdc] after the projection gives the text
    of [a.md]. *)
Lemma link_reads_rule_file_witness :
  let w := two_rules_project in
  let R : gmap string node := {[ "a.md" := rule_file "A"; "b.md" := rule_file "B" ]} in
  let w' := (_setup_cursor_rules [] None None w).2 in
  link_dir_real w ∧
  node_at (root w) rules_dir = Some (Dir R) ∧
  R !! "a.md" = Some (File "A") ∧
  _setup_cursor_rules [] None None w = (Return (), w') ∧
  file_content w' (cursor_dir ++ [link_name "a.md"]) = Some "A".
Proof.
  intros w R w'.
  assert (link_dir_real w) as Hreal by (split; intros t; by vm_compute).
  assert (node_at (root w) rules_dir = Some (Dir R)) as HR by (by vm_compute).
  assert (R !! "a.md" = Some (File "A")) as Hd by (by vm_compute).
  assert (_setup_cursor_rules [] None None w = (Return (), w')) as Hrun
    by (by vm_compute).
  do 4 (split; [assumption|]).
  apply (link_reads_rule_file None None w w' R "a.md" "A" Hreal HR Hd);
    [reflexivity | done | done | reflexivity | exact Hrun].
Defined.

(** With the include pattern [a*], one of the two rule files is linked
    and one is skipped. *)
Lemma projection_reports_counts_witness :
  let w := two_rules_project in
  let R : gmap string node := {[ "a.md" := rule_file "A"; "b.md" := rule_file "B" ]} in
  let w' := (_setup_cursor_rules [] (Some ["a*"]) None w).2 in
  node_at (root w) rules_dir = Some (Dir R) ∧
  _setup_cursor_rules [] (Some ["a*"]) None w = (Return (), w') ∧
  out w' = out w ++ [linked_message 1 1].
Proof.
  intros w R w'.
  assert (node_at (root w) rules_dir = Some (Dir R)) as HR by (by vm_compute).
  assert (_setup_cursor_rules [] (Some ["a*"]) None w = (Return (), w')) as Hrun
    by (by vm_compute).
  do 2 (split; [assumption|]).
  exact (proj1 (projection_reports_counts (Some ["a*"]) None w w' R HR Hrun)).
Defined.

(** The project with the link [old.mdc]: the projection returns, and
    the link directory holds [old.mdc] and the link of [a.md]. *)
Lemma projection_succeeds_witness :
  let w := stale_link_project in
  let R : gmap string node := {[ "a.md" := rule_file "A" ]} in
  let L : gmap string node := {[ "old.mdc" := Symlink (link_target "old.md") ]} in
  node_at (root w) rules_dir = Some (Dir R) ∧
  link_dir_content w = Some L ∧
  ∃ w', _setup_cursor_rules [] None None w = (Return (), w') ∧
        node_at (root w') cursor_dir =
          Some (Dir (projected None None (sorted_names R ".md") L)).
Proof.
  intros w R L. split; [by vm_compute|]. split; [by vm_compute|].
  apply (projection_succeeds None None w R L); [by vm_compute | by vm_compute |].
  intros d x _ _ _ [_ [=]]%lookup_singleton_Some.
Defined.

Lemma projection_blocked_by_directory_witness :
  let w := blocked_project in
  let R : gmap string node := {[ "a.md" := rule_file "A" ]} in
  node_at (root w) rules_dir = Some (Dir R) ∧
  R !! "a.md" = Some (rule_file "A") ∧
  link_entry w (link_name "a.md") = Some (Dir ∅) ∧
  ∃ e w', _setup_cursor_rules [] None None w = (Raise (OSError e), w') ∧
          out w' = out w.
Proof.
  intros w R. split; [by vm_compute|]. split; [by vm_compute|].
  split; [by vm_compute|].
  apply (projection_blocked_by_directory None None w R ∅ "a.md");
    [by vm_compute | by eexists | reflexivity | reflexivity | by vm_compute].
Defined.

Lemma projection_rerun_changes_nothing_witness :
  let w := two_rules_project in
  let R : gmap string node := {[ "a.md" := rule_file "A"; "b.md" := rule_file "B" ]} in
  let w1 := (_setup_cursor_rules [] None None w).2 in
  let w2 := (_setup_cursor_rules [] None None w1).2 in
  node_at (root w) rules_dir = Some (Dir R) ∧
  _setup_cursor_rules [] None None w = (Return (), w1) ∧
  is_Some (node_at (root w1) cursor_dir) ∧
  _setup_cursor_rules [] None None w1 = (Return (), w2) ∧
  fs w2 = fs w1.
Proof.
  intros w R w1 w2.
  assert (node_at (root w) rules_dir = Some (Dir R)) as HR by (by vm_compute).
  assert (_setup_cursor_rules [] None None w = (Return (), w1)) as H1
    by (by vm_compute).
  assert (_setup_cursor_rules [] None None w1 = (Return (), w2)) as H2
    by (by vm_compute).
  assert (node_at (root w1) cursor_dir =
          Some (Dir {[ "a.mdc" := Symlink (link_target "a.md");
                       "b.mdc" := Symlink (link_target "b.md") ]})) as HL
    by (by vm_compute).
  split; [assumption|]. split; [assumption|]. split; [by rewrite HL|].
  split; [assumption|].
  exact (projection_rerun_changes_nothing None None w w1 w2 R _ HR H1 HL H2).
Defined.

(** [install] leaves [docs] alone. *)
Lemma install_touches_only_witness :
  let w := project_with_settings ("x: y" +:+ nl) in
  install_dirs_real w ∧
  ("docs" ∉ install_entries) ∧
  fs (install None None w).2 !! "docs" = fs w !! "docs".
Proof.
  intros w.
  assert (install_dirs_real w) as Hreal
    by (split; [|split]; intros t; by vm_compute).
  assert ("docs" ∉ install_entries) as Hk.
  { unfold install_entries. rewrite !not_elem_of_cons. repeat split; try done.
    apply not_elem_of_nil. }
  split; [exact Hreal|]. split; [exact Hk|].
  exact (install_touches_only None None w "docs" Hreal Hk).
Defined.

Lemma header_on_directory_witness :
  node_at (root claude_dir_project) ["CLAUDE.md"] = Some (Dir ∅) ∧
  _ensure_speculate_header ["CLAUDE.md"] claude_dir_project =
    (Raise (OSError EISDIR), claude_dir_project).
Proof.
  split; [by vm_compute|].
  apply (header_on_directory ["CLAUDE.md"] claude_dir_project ∅). by vm_compute.
Defined.

(** After an install into a project without [AGENTS.md], the file is
    there and holds the marker. *)
Lemma install_headers_in_place_witness :
  let w := project_with_settings ("x: y" +:+ nl) in
  let w' := (install None None w).2 in
  fs w !! "CLAUDE.md" = None ∧
  fs w !! "AGENTS.md" = None ∧
  install None None w = (Return (), w') ∧
  ∃ content, fs w' !! "AGENTS.md" = Some (File content) ∧
             str_in SPECULATE_MARKER content = true.
Proof.
  intros w w'. split; [by vm_compute|]. split; [by vm_compute|].
  assert (install None None w = (Return (), w')) as Hrun by (by vm_compute).
  split; [exact Hrun|].
  apply (install_headers_in_place None None w w' "AGENTS.md");
    [by vm_compute | by vm_compute | exact Hrun |].
  apply list_elem_of_further, list_elem_of_here.
Defined.

(** The first install of the project with two rule files. *)
Lemma first_install_creates_settings_witness :
  let w := two_rules_project in
  fs w !! ".speculate" = None ∧
  fs w !! ".copier-answers.yml" = None ∧
  load_or_absent w answers_file = Some None ∧
  ∃ w',
    _update_speculate_settings [] w = (Return (), w') ∧
    fs w' = <[".speculate" :=
                Dir {["settings.yml" := File (dump (new_record w ∅ None))]}]>
              (fs w) ∧
    dom (new_record w ∅ None) = {["last_update"; "last_cli_version"]} ∪ ∅.
Proof.
  intros w. split; [by vm_compute|]. split; [by vm_compute|].
  split; [by vm_compute|].
  apply (first_install_creates_settings w None); by vm_compute.
Defined.

Lemma corrupt_answers_blocks_record_witness :
  let w := broken_answers_project in
  file_content w answers_file = Some "key: [broken" ∧
  safe_load "key: [broken" = None ∧
  load_or_absent w settings_file = Some (Some {[ "x" := PyStr "y" ]}) ∧
  _update_speculate_settings [] w = (Raise YAMLError, w).
Proof.
  intros w. split; [by vm_compute|]. split; [by vm_compute|].
  split; [by vm_compute|].
  apply (corrupt_answers_blocks_record w
           {[ "settings.yml" := File ("x: y" +:+ nl) ]}
           (Some {[ "x" := PyStr "y" ]}) "key: [broken"); by vm_compute.
Defined.

(** The record of the project with the setting [x: y] loads back as it
    was dumped, and a second install keeps [x]. *)
Lemma record_survives_reinstall_witness :
  let w := project_with_settings ("x: y" +:+ nl) in
  let prior : gmap string pyobj := {[ "x" := PyStr "y" ]} in
  let m1 := new_record w prior None in
  load_or_absent w settings_file = Some (Some prior) ∧
  load_or_absent w answers_file = Some None ∧
  safe_load (dump m1) = Some (PyDict m1) ∧
  ∃ w1,
    _update_speculate_settings [] w = (Return (), w1) ∧
    ∀ later, fs later = fs w1 →
      ∃ w2 m2,
        _update_speculate_settings [] later = (Return (), w2) ∧
        file_content w2 settings_file = Some (dump m2) ∧
        m2 !! "last_update" = Some (PyStr (clock later)) ∧
        ∀ k, k ∉ standard_keys → m2 !! k = prior !! k.
Proof.
  intros w prior m1. split; [by vm_compute|]. split; [by vm_compute|].
  split; [by vm_compute|].
  apply (record_survives_reinstall w
           {[ "settings.yml" := File ("x: y" +:+ nl) ]} (Some prior) None);
    by vm_compute.
Defined.


(** With a copier that changes no file, [update] leaves [docs] alone. *)
Lemma update_touches_only_witness :
  touches [] copier_run_update ∧
  install_dirs_real ready_project ∧
  ("docs" ∉ install_entries) ∧
  fs (update ready_project).2 !! "docs" = fs ready_project !! "docs".
Proof.
  assert (touches [] copier_run_update) as Hc by (by intros w k _).
  assert (install_dirs_real ready_project) as Hreal
    by (split; [|split]; intros t; by vm_compute).
  assert ("docs" ∉ install_entries) as Hk.
  { unfold install_entries. rewrite !not_elem_of_cons. repeat split; try done.
    apply not_elem_of_nil. }
  split; [exact Hc|]. split; [exact Hreal|]. split; [exact Hk|].
  apply (update_touches_only [] ready_project "docs" Hc);
    [|apply not_elem_of_nil | exact Hk].
  intros w1 [= <-]. exact Hreal.
Defined.

Lemma plain_console_prints : console_prints.
Proof. repeat split; intros; intros w; by eexists. Qed.

Lemma status_reads_only_witness :
  console_prints ∧ fs (status ready_project).2 = fs ready_project.
Proof.
  split; [exact plain_console_prints|].
  exact (status_reads_only ready_project plain_console_prints).
Defined.


(** The [docs] of the project with two rule files of one byte each. *)
Lemma dir_stats_counts_files_witness :
  let w := two_rules_project in
  let d : gmap string node :=
    {[ "general" := Dir {[ "agent-rules" :=
         Dir {[ "a.md" := rule_file "A"; "b.md" := rule_file "B" ]} ]} ]} in
  node_at (root w) ["docs"] = Some (Dir d) ∧
  no_links (Dir d) = true ∧
  count_files (Dir d) = 2 ∧ total_bytes (Dir d) = 2 ∧
  _get_dir_stats ["docs"] w = (Return (count_files (Dir d), total_bytes (Dir d)), w).
Proof.
  intros w d. do 4 (split; [by vm_compute|]).
  apply (dir_stats_counts_files ["docs"] w d); by vm_compute.
Defined.
